(** * Dispatcher removal and delegate renaming: [scripts/rename_cursor_functions.py]

    A shallow embedding of the three text transforms of the script
    ([find_dispatchers], [remove_dispatchers], [rename_cursor_functions]) and of
    [process_file], followed by the properties of the design document that
    concern them.

    Conventions of the embedding.
    - A Python [str] is a [list ascii]: documents are sequences of 8-bit
      characters (code points 0..255).  The character classes [\s] / [str.isspace]
      and [\w] are the ones CPython uses for [str] patterns, restricted to that
      range.
    - A document is split with [content.split('\n')] and reassembled with
      ['\n'.join(lines)]; line numbers are indices into that list.
    - Indexing a list out of range raises [IndexError]; the [while] loops of
      the scanner are run with fuel.  Both are visible in the result type
      [outcome]. *)

From Stdlib Require Import Ascii String.
From stdpp Require Import base option relations list sorting strings.

Local Open Scope list_scope.

Abbreviation text := (list ascii).

(** A string literal as a [text]. *)
Definition txt (s : string) : text := list_ascii_of_string s.
Arguments txt : simpl never.

(** ** Characters *)

Definition code (c : ascii) : N := N_of_ascii c.

Definition in_range (lo hi : N) (c : ascii) : bool :=
  ((lo <=? code c) && (code c <=? hi))%N.

(** [str.isspace] and the regex class [\s] on code points below 256. *)
Definition is_space (c : ascii) : bool :=
  in_range 9 13 c || in_range 28 32 c || in_range 133 133 c || in_range 160 160 c.

(** The regex class [\w] on code points below 256: alphanumerics and [_]. *)
Definition is_word (c : ascii) : bool :=
  in_range 48 57 c || in_range 65 90 c || in_range 95 95 c || in_range 97 122 c
  || in_range 170 170 c || in_range 178 179 c || in_range 181 181 c
  || in_range 185 186 c || in_range 188 190 c
  || in_range 192 214 c || in_range 216 246 c || in_range 248 255 c.

Definition newline : ascii := "010"%char.

(** ** Strings *)

Definition text_eqb (s t : text) : bool := bool_decide (s = t).

(** Truth value of [not s] for a string [s]. *)
Definition py_not (s : text) : bool :=
  match s with [] => true | _ :: _ => false end.

Fixpoint drop_while (f : ascii -> bool) (s : text) : text :=
  match s with
  | [] => []
  | c :: s' => if f c then drop_while f s' else s
  end.

Fixpoint take_while (f : ascii -> bool) (s : text) : text :=
  match s with
  | [] => []
  | c :: s' => if f c then c :: take_while f s' else []
  end.

(** [s.strip()] *)
Definition lstrip (s : text) : text := drop_while is_space s.
Definition rstrip (s : text) : text := reverse (drop_while is_space (reverse s)).
Definition strip (s : text) : text := rstrip (lstrip s).

(** [content.split('\n')]: never the empty list. *)
Fixpoint split_lines (s : text) : list text :=
  match s with
  | [] => [[]]
  | c :: s' =>
      if Ascii.eqb c newline then [] :: split_lines s'
      else match split_lines s' with
           | l :: ls => (c :: l) :: ls
           | [] => [[c]]
           end
  end.

(** ['\n'.join(lines)] *)
Fixpoint join_lines (ls : list text) : text :=
  match ls with
  | [] => []
  | [l] => l
  | l :: ls' => l ++ newline :: join_lines ls'
  end.

(** [s] starts with the literal [p]; the rest of [s] is returned. *)
Fixpoint strip_prefix (p s : text) : option text :=
  match p, s with
  | [], _ => Some s
  | a :: p', b :: s' => if Ascii.eqb a b then strip_prefix p' s' else None
  | _ :: _, [] => None
  end.

(** [s] ends with the literal [p]; the part before it is returned. *)
Definition strip_suffix (p s : text) : option text :=
  reverse <$> strip_prefix (reverse p) (reverse s).

(** ** Outcomes of the Python code *)

Inductive outcome (A : Type) : Type :=
  | Done (a : A)
  | IndexError
  | OutOfFuel.
Arguments Done {A} a.
Arguments IndexError {A}.
Arguments OutOfFuel {A}.

Definition bind {A B : Type} (m : outcome A) (k : A -> outcome B) : outcome B :=
  match m with
  | Done a => k a
  | IndexError => IndexError
  | OutOfFuel => OutOfFuel
  end.

Notation "'let*' x ':=' m 'in' k" := (bind m (fun x => k))
  (at level 10, x pattern, m at level 100, k at level 200).

(** [lines[i]] for [i >= 0] *)
Definition index {A : Type} (lines : list A) (i : nat) : outcome A :=
  match lines !! i with
  | Some l => Done l
  | None => IndexError
  end.

(** ** The two patterns of the scanner *)

(** The lazy group [(.*?)] followed by the literal character [c]: the text up
    to the first [c], which [.] must be able to cross (no newline), and the text
    after that [c]. *)
Fixpoint lazy_until (c : ascii) (s : text) : option (text * text) :=
  match s with
  | [] => None
  | x :: s' =>
      if Ascii.eqb x c then Some ([], s')
      else if Ascii.eqb x newline then None
      else match lazy_until c s' with
           | Some (g, rest) => Some (x :: g, rest)
           | None => None
           end
  end.

(** [re.match(r'^func \(p \*Parser\) (parse\w+)\((.*?)\)(.*?)\{', line)]:
    groups 1, 2 and 3 when the line matches.  The greedy [\w+] takes the whole
    run of word characters, since the next pattern character [(] is not one;
    when some closing parenthesis allows the rest to match, so does the first. *)
Definition func_match (line : text) : option (text * text * text) :=
  rest ← strip_prefix (txt "func (p *Parser) parse") line;
  let w := take_while is_word rest in
  match w, drop_while is_word rest with
  | _ :: _, "("%char :: rest1 =>
      '(g2, rest2) ← lazy_until ")"%char rest1;
      '(g3, _) ← lazy_until "{"%char rest2;
      Some (txt "parse" ++ w, g2, g3)
  | _, _ => None
  end.

(** [re.match(r'\s*return p\.(\w+Cursor)\(', line)]: group 1 when the line
    matches.  Group 1 is the whole run of word characters after [p.]; it must
    end in [Cursor], with at least one character before it, and be followed by
    an opening parenthesis. *)
Definition return_match (line : text) : option text :=
  rest ← strip_prefix (txt "return p.") (drop_while is_space line);
  let w := take_while is_word rest in
  match drop_while is_word rest with
  | "("%char :: _ =>
      match strip_suffix (txt "Cursor") w with
      | Some (_ :: _) => Some w
      | _ => None
      end
  | _ => None
  end.

(** ** [find_dispatchers] *)

Record dispatcher : Type := Dispatcher {
  name : text;
  cursor_name : text;
  start_line : nat;
  end_line : nat;
  params : text;
  return_type : text
}.

(** [while j < len(lines) and not lines[j].strip(): j += 1] *)
Fixpoint skip_blank (fuel : nat) (lines : list text) (j : nat) : outcome nat :=
  match fuel with
  | O => OutOfFuel
  | S fuel' =>
      if j <? length lines then
        let* l := index lines j in
        if py_not (strip l) then skip_blank fuel' lines (S j) else Done j
      else Done j
  end.

(** [while k < len(lines) and lines[k].strip() != '}': k += 1] *)
Fixpoint find_close (fuel : nat) (lines : list text) (k : nat) : outcome nat :=
  match fuel with
  | O => OutOfFuel
  | S fuel' =>
      if k <? length lines then
        let* l := index lines k in
        if negb (text_eqb (strip l) (txt "}")) then find_close fuel' lines (S k)
        else Done k
      else Done k
  end.

(** One iteration of the outer loop, up to but excluding [i += 1]: the new
    value of [i] and of [dispatchers]. *)
Definition scan_body (fuel : nat) (lines : list text) (i : nat)
    (dispatchers : list dispatcher) : outcome (nat * list dispatcher) :=
  let* line := index lines i in
  match func_match line with
  | Some (func_name, params, g3) =>
      let return_type := strip g3 in
      let* j := skip_blank fuel lines (i + 1) in
      if j <? length lines then
        let* lj := index lines j in
        match return_match lj with
        | Some cursor_func =>
            let expected_cursor := func_name ++ txt "Cursor" in
            if text_eqb cursor_func expected_cursor then
              let* k := find_close fuel lines (j + 1) in
              if k <? length lines then
                Done (k, dispatchers ++
                           [Dispatcher func_name cursor_func i k params return_type])
              else Done (i, dispatchers)
            else Done (i, dispatchers)
        | None => Done (i, dispatchers)
        end
      else Done (i, dispatchers)
  | None => Done (i, dispatchers)
  end.

(** [while i < len(lines): ...; i += 1] *)
Fixpoint scan (fuel : nat) (lines : list text) (i : nat)
    (dispatchers : list dispatcher) : outcome (list dispatcher) :=
  match fuel with
  | O => OutOfFuel
  | S fuel' =>
      if i <? length lines then
        let* (i', dispatchers') := scan_body fuel' lines i dispatchers in
        scan fuel' lines (i' + 1) dispatchers'
      else Done dispatchers
  end.

(** The scanner run with a given amount of fuel. *)
Definition find_dispatchers_run (fuel : nat) (content : text)
    : outcome (list dispatcher) :=
  scan fuel (split_lines content) 0 [].

(** The scanner: one more unit of fuel than there are lines is enough for
    every loop (lemma [find_dispatchers_run_enough]). *)
Definition find_dispatchers (content : text) : list dispatcher :=
  match find_dispatchers_run (S (length (split_lines content))) content with
  | Done dispatchers => dispatchers
  | _ => []
  end.

(** ** [remove_dispatchers] *)

(** [sorted(dispatchers, key=lambda d: d['start_line'], reverse=True)]: a
    stable sort, largest [start_line] first. *)
Fixpoint insert_desc (d : dispatcher) (ds : list dispatcher) : list dispatcher :=
  match ds with
  | [] => [d]
  | d' :: ds' =>
      if start_line d' <=? start_line d then d :: ds
      else d' :: insert_desc d ds'
  end.

Fixpoint sorted_desc (ds : list dispatcher) : list dispatcher :=
  match ds with
  | [] => []
  | d :: ds' => insert_desc d (sorted_desc ds')
  end.

(** [while start > 0 and not lines[start - 1].strip(): start -= 1] *)
Fixpoint extend_start (lines : list text) (start : nat) : outcome nat :=
  match start with
  | O => Done 0
  | S p =>
      let* l := index lines p in
      if py_not (strip l) then extend_start lines p else Done start
  end.

(** The value of [start] when the lines are deleted: after the loop and
    [if start > 0: start += 1]. *)
Definition deletion_start (lines : list text) (start : nat) : outcome nat :=
  let* start' := extend_start lines start in
  Done (if 0 <? start' then start' + 1 else start').

(** [del lines[a:b]] for [a, b >= 0] *)
Definition del_slice {A : Type} (a b : nat) (lines : list A) : list A :=
  if a <? b then take a lines ++ drop b lines else lines.

(** The body of the [for] loop. *)
Definition remove_one (lines : list text) (d : dispatcher) : outcome (list text) :=
  let* start := deletion_start lines (start_line d) in
  Done (del_slice start (end_line d + 1) lines).

Fixpoint remove_loop (ds : list dispatcher) (lines : list text)
    : outcome (list text) :=
  match ds with
  | [] => Done lines
  | d :: ds' =>
      let* lines' := remove_one lines d in
      remove_loop ds' lines'
  end.

Definition remove_dispatchers (content : text) (dispatchers : list dispatcher)
    : outcome text :=
  let* lines := remove_loop (sorted_desc dispatchers) (split_lines content) in
  Done (join_lines lines).

(** ** [rename_cursor_functions] *)

Definition is_prefix (p s : text) : bool :=
  match strip_prefix p s with Some _ => true | None => false end.

(** [re.sub] with the pattern [\b] followed by the literal [pat], whose first
    character is a word character, and the literal replacement [repl]: the
    occurrences of [pat] that do not follow a word character are replaced,
    leftmost first, the search resuming after each match.  [prev_word] tells
    whether the character before [s] is a word character; [skip] counts the
    characters of a match that are still to be passed over. *)
Fixpoint re_sub_from (pat repl : text) (prev_word : bool) (skip : nat) (s : text)
    : text :=
  match s with
  | [] => []
  | c :: s' =>
      match skip with
      | S n => re_sub_from pat repl (is_word c) n s'
      | O =>
          if negb prev_word && is_prefix pat s
          then repl ++ re_sub_from pat repl (is_word c) (length pat - 1) s'
          else c :: re_sub_from pat repl (is_word c) 0 s'
      end
  end.

(** The pattern and the replacement for one delegate name.  The name is
    spliced into the pattern as it is: it stands for itself when it is made of
    word characters, as the names recorded by the scanner are. *)
Definition decl_pattern (cursor_name : text) : text :=
  txt "func (p *Parser) " ++ cursor_name ++ txt "(".

(** [cursor_name[:-6]] *)
Definition base_name (cursor_name : text) : text :=
  take (length cursor_name - 6) cursor_name.

Definition rename_decl (cursor_name : text) (line : text) : text :=
  re_sub_from (decl_pattern cursor_name) (decl_pattern (base_name cursor_name))
    false 0 line.

(** The inner [for cursor_name in cursor_names] loop on one line. *)
Definition rename_line (cursor_names : list text) (line : text) : text :=
  foldl (fun new_line c => rename_decl c new_line) line cursor_names.

(** [cursor_names] is a Python set; the order in which the inner loop visits
    it is not fixed by the language.  [set_iteration dispatchers order] says
    that [order] is one of the possible orders: the delegate names of the
    records, each once. *)
Definition set_iteration (dispatchers : list dispatcher) (order : list text) : Prop :=
  NoDup order /\ forall c, c ∈ order <-> c ∈ map cursor_name dispatchers.

(** [rename_cursor_functions content dispatchers], with the iteration order
    of the set of delegate names made explicit. *)
Definition rename_cursor_functions (order : list text) (content : text) : text :=
  join_lines (map (rename_line order) (split_lines content)).

(** ** [process_file] *)

(** The text transformation of [process_file] and the count it returns.  When
    no dispatcher is found the file is not written: its content stays as it
    is. *)
Definition process_file (order : list text) (content : text) : outcome (text * nat) :=
  let dispatchers := find_dispatchers content in
  match dispatchers with
  | [] => Done (content, 0)
  | _ :: _ =>
      let* content1 := remove_dispatchers content dispatchers in
      let content2 := rename_cursor_functions order content1 in
      Done (content2, length dispatchers)
  end.

(** ** One forward pass *)

(** The ranges of lines the code deletes for a list of records, every one
    computed by the code's own [deletion_start] on the same list of lines. *)
Fixpoint deletion_spans (lines : list text) (ds : list dispatcher)
    : outcome (list (nat * nat)) :=
  match ds with
  | [] => Done []
  | d :: ds' =>
      let* start := deletion_start lines (start_line d) in
      let* spans := deletion_spans lines ds' in
      Done ((start, end_line d) :: spans)
  end.

Definition in_span (i : nat) (span : nat * nat) : bool :=
  (fst span <=? i) && (i <=? snd span).

Definition covered (spans : list (nat * nat)) (i : nat) : bool :=
  existsb (in_span i) spans.

(** The design document's alternative to deleting in place: one pass over the
    lines, the first of which has index [i], that copies the lines outside all
    the spans. *)
Fixpoint forward_pass (spans : list (nat * nat)) (i : nat) (lines : list text)
    : list text :=
  match lines with
  | [] => []
  | l :: lines' =>
      if covered spans i then forward_pass spans (S i) lines'
      else l :: forward_pass spans (S i) lines'
  end.

(** ** The spans of the design document *)

(** The first line of the run of blank lines that ends just before line
    [start]: [start] itself when the line before it is not blank, or when
    there is no line before it. *)
Fixpoint blank_run_start (lines : list text) (start : nat) : nat :=
  match start with
  | O => 0
  | S before =>
      match lines !! before with
      | Some l => if py_not (strip l) then blank_run_start lines before else start
      | None => start
      end
  end.

(** The start of the deleted range in the words of the design document: the
    start of the record, extended backward over the blank lines immediately
    before it, but stopping so that one blank line remains before the deleted
    range if there was one before the extension. *)
Definition extended_start (lines : list text) (start : nat) : nat :=
  let first := blank_run_start lines start in
  if first <? start then first + 1 else start.

(** The extended spans of the design document, every one taken on the same
    list of lines. *)
Definition extended_spans (lines : list text) (ds : list dispatcher)
    : list (nat * nat) :=
  map (fun d => (extended_start lines (start_line d), end_line d)) ds.

(** The same start, except that a run of blank lines that begins on the first
    line of the document is deleted whole. *)
Definition guarded_start (lines : list text) (start : nat) : nat :=
  if blank_run_start lines start =? 0 then 0 else extended_start lines start.

Definition guarded_spans (lines : list text) (ds : list dispatcher)
    : list (nat * nat) :=
  map (fun d => (guarded_start lines (start_line d), end_line d)) ds.

(** * Vocabulary of the properties *)

(** ** Lines *)

(** [not l.strip()] holds. *)
Definition blank (l : text) : Prop := py_not (strip l) = true.

(** [l.strip() == '}'] holds. *)
Definition closing (l : text) : Prop := strip l = txt "}".

(** ** Where the extension over blank lines stops *)

(** Line [i] is the first line of the document or follows a non-blank line. *)
Definition anchored (lines : list text) (i : nat) : Prop :=
  i = 0 \/ exists l, lines !! (i - 1) = Some l /\ ~ blank l.

(** ** What a record says about the document *)

(** The record [d] describes lines of the document: a header at
    [start_line d], blank lines up to the line [j], which forwards to the
    recorded delegate, and the first line after [j] that holds only a closing
    brace at [end_line d]. *)
Record forwards_at (lines : list text) (d : dispatcher) (j : nat) : Prop := {
  fw_header : exists header g3,
      lines !! start_line d = Some header /\
      func_match header = Some (name d, params d, g3) /\
      return_type d = strip g3;
  fw_body_after : start_line d < j;
  fw_blank : forall m l, start_line d < m < j -> lines !! m = Some l -> blank l;
  fw_body : exists body,
      lines !! j = Some body /\ ~ blank body /\
      return_match body = Some (cursor_name d);
  fw_suffix : cursor_name d = name d ++ txt "Cursor";
  fw_end_after : j < end_line d;
  fw_open : forall m l, j < m < end_line d -> lines !! m = Some l -> ~ closing l;
  fw_close : exists closer, lines !! end_line d = Some closer /\ closing closer
}.

Definition dispatcher_at (lines : list text) (d : dispatcher) : Prop :=
  exists j, forwards_at lines d j.

(** The records found from line [i] on: each describes a dispatcher of the
    document, and each starts after the end of the one before. *)
Inductive found_from (lines : list text) : nat -> list dispatcher -> Prop :=
  | found_nil i : found_from lines i []
  | found_cons i d ds :
      i <= start_line d ->
      dispatcher_at lines d ->
      found_from lines (S (end_line d)) ds ->
      found_from lines i (d :: ds).

(** ** Statements of a recorded function *)

(** The number of non-blank lines strictly between the header and the
    closing line of a record. *)
Definition body_statements (lines : list text) (d : dispatcher) : nat :=
  length (filter (fun l => py_not (strip l) = false)
            (take (end_line d - start_line d - 1) (drop (S (start_line d)) lines))).

(** ** Vocabulary of the rewriter *)

(** [pat] occurs somewhere in [s]. *)
Definition occurs (pat s : text) : Prop :=
  exists pre post, s = pre ++ pat ++ post.

(** A test for [occurs]. *)
Fixpoint occursb (pat s : text) : bool :=
  is_prefix pat s || match s with [] => false | _ :: s' => occursb pat s' end.

(** [s] can be a line of a document. *)
Definition one_line (s : text) : Prop := newline ∉ s.

(** [c] is made of word characters. *)
Definition word_name (c : text) : Prop := Forall (fun a => is_word a = true) c.

(** [t] is [s] with some occurrences of the declaration text of a name of
    [names] replaced by the declaration text of its base name, every other
    character being copied. *)
Inductive renamed (names : list text) : text -> text -> Prop :=
  | renamed_nil : renamed names [] []
  | renamed_keep c s t :
      renamed names s t -> renamed names (c :: s) (c :: t)
  | renamed_decl n s t :
      n ∈ names -> renamed names s t ->
      renamed names (decl_pattern n ++ s) (decl_pattern (base_name n) ++ t).

(** The text [pre] before an occurrence of the pattern lets [\b] match: it
    ends in a character that is not a word character or, when it is empty,
    the character before it, of which [prev_word] tells, is no word
    character. *)
Definition at_boundary (prev_word : bool) (pre : text) : Prop :=
  match last pre with
  | Some c => is_word c = false
  | None => prev_word = false
  end.

(** [pat] occurs in [line] between [pre] and [post], at the start of the line
    or after a character that is not a word character. *)
Definition occurs_after (pat line pre post : text) : Prop :=
  line = pre ++ pat ++ post /\ at_boundary false pre.

(** The leftmost such occurrence. *)
Definition first_occurrence (pat line pre post : text) : Prop :=
  occurs_after pat line pre post /\
  forall pre' post', occurs_after pat line pre' post' -> length pre <= length pre'.

(** ** A dispatcher in the output *)

(** Lines [h < j < k] of the document survive the deletion of [spans], and
    what is left of the document has a dispatcher there once the delegates of
    [order] are renamed: line [h], renamed, is a header; every surviving line
    between [h] and [j] is blank; line [j] forwards to the name of that header
    followed by [Cursor]; line [k] holds only a closing brace. *)
Record reappears (lines : list text) (spans : list (nat * nat))
    (order : list text) (h j k : nat) : Prop := {
  re_header : exists header fn ps g3,
      lines !! h = Some header /\ covered spans h = false /\
      func_match (rename_line order header) = Some (fn, ps, g3) /\
      exists body,
        lines !! j = Some body /\ covered spans j = false /\
        return_match body = Some (fn ++ txt "Cursor");
  re_order : h < j < k;
  re_blank : forall m l,
      h < m < j -> lines !! m = Some l -> covered spans m = false -> blank l;
  re_close : exists closer,
      lines !! k = Some closer /\ covered spans k = false /\ closing closer
}.

(** ** Example documents *)

Definition tab : ascii := "009"%char.

(** A dispatcher separated from the code before it by three blank lines, and
    its delegate. *)
Definition doc_parse_expr : text := join_lines [
  txt "package parser";
  txt "";
  txt "";
  txt "";
  txt "func (p *Parser) parseExpr(x int) Node {";
  tab :: txt "return p.parseExprCursor(x)";
  txt "}";
  txt "";
  txt "func (p *Parser) parseExprCursor(x int) Node {";
  tab :: txt "return p.expr(x)";
  txt "}";
  txt ""
].

(** Two dispatchers in one document. *)
Definition doc_two_dispatchers : text := join_lines [
  txt "package parser";
  txt "";
  txt "func (p *Parser) parseA() Node {";
  tab :: txt "return p.parseACursor()";
  txt "}";
  txt "";
  txt "";
  txt "func (p *Parser) parseB(x int) Node {";
  tab :: txt "return p.parseBCursor(x)";
  txt "}";
  txt ""
].

(** A dispatcher with its documentation comment directly above it. *)
Definition doc_commented : text := join_lines [
  txt "// parseA forwards to the cursor implementation.";
  txt "func (p *Parser) parseA() Node {";
  tab :: txt "return p.parseACursor()";
  txt "}";
  txt ""
].

(** Two dispatchers, each after two blank lines, the first at the top of the
    document. *)
Definition doc_two_after_blanks : text := join_lines [
  txt "";
  txt "";
  txt "func (p *Parser) parseA() Node {";
  tab :: txt "return p.parseACursor()";
  txt "}";
  txt "";
  txt "";
  txt "func (p *Parser) parseB(x int) Node {";
  tab :: txt "return p.parseBCursor(x)";
  txt "}";
  txt "rest"
].

(** A dispatcher after three blank lines at the top of the document. *)
Definition doc_top_blanks : text := join_lines [
  txt "";
  txt "";
  txt "";
  txt "func (p *Parser) parseA() Node {";
  tab :: txt "return p.parseACursor()";
  txt "}";
  txt "rest"
].

(** A function whose first statement is not the forward, though its second
    statement has the forwarding shape, and a dispatcher after it. *)
Definition doc_forward_second : text := join_lines [
  txt "func (p *Parser) parseA() Node {";
  tab :: txt "p.advance()";
  tab :: txt "return p.parseACursor()";
  txt "}";
  txt "";
  txt "func (p *Parser) parseB() Node {";
  tab :: txt "return p.parseBCursor()";
  txt "}"
].

(** A function of two statements, the first of which is the forward. *)
Definition doc_forward_first : text := join_lines [
  txt "func (p *Parser) parseA() Node {";
  tab :: txt "return p.parseACursor()";
  tab :: txt "p.advance()";
  txt "}"
].

(** Text that is not Go at all. *)
Definition doc_malformed : text :=
  txt "func (p *Parser) parse( { } return p.Cursor(".

(** A delegate whose first statement calls the delegate itself. *)
Definition doc_self_call : text := join_lines [
  txt "func (p *Parser) parseA() Node {";
  tab :: txt "return p.parseACursor()";
  txt "}";
  txt "";
  txt "func (p *Parser) parseACursor() Node {";
  tab :: txt "return p.parseACursor()";
  txt "}";
  txt ""
].

(** What [process_file] writes for [doc_self_call]. *)
Definition doc_self_call_processed : text := join_lines [
  txt "";
  txt "func (p *Parser) parseA() Node {";
  tab :: txt "return p.parseACursor()";
  txt "}";
  txt ""
].

(** A dispatcher, and a comment that quotes the declaration of its
    delegate. *)
Definition doc_quoted_declaration : text := join_lines [
  txt "func (p *Parser) parseA() Node {";
  tab :: txt "return p.parseACursor()";
  txt "}";
  txt "";
  txt "// was: func (p *Parser) parseACursor() Node";
  txt "func (p *Parser) parseACursor() Node {";
  tab :: txt "return p.parseACursor2() // not parseACursor(";
  txt "}"
].

(** A dispatcher whose closing brace shares the line of the forward, followed
    by a function of the same shape with another receiver and name. *)
Definition doc_enclosed : text := join_lines [
  txt "func (p *Parser) parseA() Node {";
  tab :: txt "return p.parseACursor() }";
  txt "func (l *Lexer) lexB() Token {";
  tab :: txt "return l.lexBCursor()";
  txt "}";
  txt "func (l *Lexer) lexBCursor() Token {"
].

(** A dispatcher, and a function that calls a delegate, not in its first
    statement. *)
Definition doc_nested_forward : text := join_lines [
  txt "func (p *Parser) parseA() Node {";
  tab :: txt "return p.parseACursor()";
  txt "}";
  txt "";
  txt "func (p *Parser) parseB() Node {";
  tab :: txt "if p.peek() {";
  tab :: tab :: txt "return p.parseBCursor()";
  tab :: txt "}";
  tab :: txt "return p.parseACursor()";
  txt "}";
  txt "";
  txt "func (p *Parser) parseACursor() Node {";
  tab :: txt "return p.expr()";
  txt "}"
].

(** ** Vocabulary of the further properties *)

(** The outcome of a computation followed by a function that cannot fail. *)
Definition outcome_map {A B : Type} (f : A -> B) (m : outcome A) : outcome B :=
  let* a := m in Done (f a).

(** The number of characters of the lines, counting one more for each line:
    the length of the joined text plus one, unless there is no line. *)
Definition weight (lines : list text) : nat :=
  sum_list_with (fun l => S (length l)) lines.

(** * Properties *)

(** ** Lines and strings *)

Lemma closing_not_blank l : closing l -> ~ blank l.
Proof. unfold closing, blank. intros ->. discriminate. Qed.

Lemma split_lines_cons s : exists l ls, split_lines s = l :: ls.
Proof.
  induction s as [|c s [l [ls IH]]]; simpl; [by eauto|].
  destruct (Ascii.eqb c newline); [by eauto|].
  rewrite IH. by eauto.
Qed.

Lemma split_lines_length s : 0 < length (split_lines s).
Proof. destruct (split_lines_cons s) as (l & ls & ->). simpl. lia. Qed.

Lemma join_lines_cons l l' ls :
  join_lines (l :: l' :: ls) = l ++ newline :: join_lines (l' :: ls).
Proof. reflexivity. Qed.

Lemma join_split s : join_lines (split_lines s) = s.
Proof.
  induction s as [|c s IH]; [done|]. simpl.
  destruct (split_lines_cons s) as (l & ls & E). rewrite E in IH |- *.
  destruct (Ascii.eqb_spec c newline) as [->|Hc].
  - by rewrite join_lines_cons, IH.
  - rewrite <- IH. destruct ls; reflexivity.
Qed.

Lemma strip_prefix_Some p s r : strip_prefix p s = Some r <-> s = p ++ r.
Proof.
  revert s. induction p as [|a p IH]; intros s; simpl.
  - split; [by intros [= ->]|by intros ->].
  - destruct s as [|b s]; [by split|].
    destruct (Ascii.eqb_spec a b) as [->|Hab].
    + rewrite IH. split; [by intros ->|by intros [= ->]].
    + split; [done|]. intros [= -> _]. done.
Qed.

Lemma take_drop_while f s : take_while f s ++ drop_while f s = s.
Proof.
  induction s as [|c s IH]; [done|]. simpl.
  destruct (f c); simpl; [by rewrite IH|done].
Qed.

Lemma take_while_Forall f s : Forall (fun c => f c = true) (take_while f s).
Proof.
  induction s as [|c s IH]; simpl; [constructor|].
  destruct (f c) eqn:E; by constructor.
Qed.

(** ** The patterns, read as sets of strings *)

Lemma strip_suffix_Some p s r : strip_suffix p s = Some r <-> s = r ++ p.
Proof.
  unfold strip_suffix. split.
  - intros H. apply fmap_Some in H as (r' & H & ->).
    apply strip_prefix_Some in H. apply (f_equal reverse) in H.
    by rewrite reverse_involutive, reverse_app, reverse_involutive in H.
  - intros ->. apply fmap_Some. exists (reverse r). split.
    + apply strip_prefix_Some. by rewrite reverse_app.
    + by rewrite reverse_involutive.
Qed.

Lemma drop_while_app f ws c rest :
  Forall (fun a => f a = true) ws -> f c = false ->
  drop_while f (ws ++ c :: rest) = c :: rest.
Proof. induction 1 as [|a ws Ha _ IH]; intros Hc; simpl; [by rewrite Hc|by rewrite Ha, IH]. Qed.

Lemma take_while_app f w c rest :
  Forall (fun a => f a = true) w -> f c = false ->
  take_while f (w ++ c :: rest) = w.
Proof. induction 1 as [|a w Ha _ IH]; intros Hc; simpl; [by rewrite Hc|by rewrite Ha, IH]. Qed.

Lemma drop_while_head f s c rest : drop_while f s = c :: rest -> f c = false.
Proof.
  induction s as [|a s IH]; simpl; [done|].
  destruct (f a) eqn:Ha; [done|]. by intros [= -> _].
Qed.

(** The lazy group stops at the first occurrence of the character. *)
Lemma lazy_until_Some c s g r :
  lazy_until c s = Some (g, r) -> s = g ++ c :: r /\ (newline ∉ g) /\ (c ∉ g).
Proof.
  revert g. induction s as [|x s IH]; intros g; simpl; [done|].
  destruct (Ascii.eqb_spec x c) as [->|Hxc].
  - intros [= <- <-]. repeat split; apply not_elem_of_nil.
  - destruct (Ascii.eqb_spec x newline) as [->|Hxn]; [done|].
    destruct (lazy_until c s) as [[g' r']|]; [|done].
    intros [= <- <-]. destruct (IH g' eq_refl) as (-> & Hn & Hc).
    repeat split; rewrite not_elem_of_cons; split; done.
Qed.

(** It matches as soon as some occurrence can be reached without crossing a
    newline; what is left then ends like what was left after that
    occurrence. *)
Lemma lazy_until_complete c s g r :
  s = g ++ c :: r -> newline ∉ g ->
  exists g' h, lazy_until c s = Some (g', h ++ r) /\ newline ∉ h.
Proof.
  revert s. induction g as [|x g IH]; intros s -> Hn; simpl.
  - rewrite Ascii.eqb_refl. exists [], []. split; [done|apply not_elem_of_nil].
  - apply not_elem_of_cons in Hn as [Hx Hn].
    destruct (Ascii.eqb_spec x c) as [->|Hxc].
    + exists [], (g ++ [c]). split; [by rewrite <- app_assoc|].
      rewrite not_elem_of_app, list_elem_of_singleton. split; [done|congruence].
    + destruct (Ascii.eqb_spec x newline) as [->|_]; [done|].
      destruct (IH _ eq_refl Hn) as (g' & h & -> & Hh). by exists (x :: g'), h.
Qed.

Lemma strip_prefix_app p r : strip_prefix p (p ++ r) = Some r.
Proof. by apply strip_prefix_Some. Qed.

(** The header pattern matches exactly the lines that begin with
    [func (p *Parser) parse], word characters, an opening parenthesis, and
    have a closing parenthesis and then an opening brace further on, with no
    newline in between; group 1 is [parse] and the word characters. *)
Lemma func_match_iff line fn :
  (exists ps g3, func_match line = Some (fn, ps, g3)) <->
  exists w g2 g3 rest,
    line = txt "func (p *Parser) parse" ++ w ++
           "("%char :: (g2 ++ ")"%char :: (g3 ++ "{"%char :: rest)) /\
    w <> [] /\ Forall (fun c => is_word c = true) w /\
    (newline ∉ g2) /\ (newline ∉ g3) /\ fn = txt "parse" ++ w.
Proof.
  split.
  - intros (ps & g3 & H). unfold func_match in H.
    destruct (strip_prefix (txt "func (p *Parser) parse") line) as [rest|] eqn:Hp;
      simpl in H; [|done].
    apply strip_prefix_Some in Hp.
    pose proof (take_drop_while is_word rest) as Hsplit.
    pose proof (take_while_Forall is_word rest) as Hw.
    destruct (take_while is_word rest) as [|c w] eqn:Hw0; [done|].
    destruct (drop_while is_word rest) as [|c1 rest1]; [done|].
    destruct (Ascii.eqb_spec c1 "("%char) as [->|Hne].
    + destruct (lazy_until ")"%char rest1) as [[g2 rest2]|] eqn:H2; simpl in H; [|done].
      destruct (lazy_until "{"%char rest2) as [[g3' rest3]|] eqn:H3; simpl in H; [|done].
      injection H as <- <- <-.
      apply lazy_until_Some in H2 as (-> & Hn2 & _).
      apply lazy_until_Some in H3 as (-> & Hn3 & _).
      exists (c :: w), g2, g3', rest3. by rewrite Hp, <- Hsplit.
    + exfalso. revert H Hne. clear.
      destruct c1 as [[] [] [] [] [] [] [] []]; try done.
  - intros (w & g2 & g3 & rest & -> & Hw & Hword & Hn2 & Hn3 & ->).
    unfold func_match. rewrite strip_prefix_app. simpl.
    rewrite take_while_app, drop_while_app by done.
    destruct w as [|c w]; [done|].
    destruct (lazy_until_complete ")"%char _ g2 (g3 ++ "{"%char :: rest) eq_refl Hn2)
      as (g2' & h & -> & Hh). simpl.
    destruct (lazy_until_complete "{"%char (h ++ g3 ++ "{"%char :: rest) (h ++ g3) rest)
      as (g3' & h' & -> & _).
    + by rewrite <- app_assoc.
    + rewrite not_elem_of_app. by split.
    + simpl. by exists g2', g3'.
Qed.

(** The forwarding pattern matches exactly the lines that consist of
    whitespace, [return p.], word characters ending in [Cursor] with at least
    one before it, and an opening parenthesis; group 1 is the word
    characters. *)
Lemma return_match_iff line c :
  return_match line = Some c <->
  exists ws x rest,
    line = ws ++ txt "return p." ++ c ++ "("%char :: rest /\
    Forall (fun a => is_space a = true) ws /\
    Forall (fun a => is_word a = true) c /\
    c = x ++ txt "Cursor" /\ x <> [].
Proof.
  split.
  - intros H. unfold return_match in H.
    pose proof (take_drop_while is_space line) as Hline.
    pose proof (take_while_Forall is_space line) as Hws.
    destruct (strip_prefix (txt "return p.") (drop_while is_space line)) as [rest0|] eqn:Hp;
      simpl in H; [|done].
    apply strip_prefix_Some in Hp.
    pose proof (take_drop_while is_word rest0) as Hsplit.
    pose proof (take_while_Forall is_word rest0) as Hw.
    destruct (drop_while is_word rest0) as [|c1 rest1]; [done|].
    destruct (Ascii.eqb_spec c1 "("%char) as [->|Hne].
    + destruct (strip_suffix (txt "Cursor") (take_while is_word rest0)) as [[|a x]|] eqn:Hs;
        [done| |done].
      injection H as <-. apply strip_suffix_Some in Hs.
      exists (take_while is_space line), (a :: x), rest1.
      repeat split; [|done..]. by rewrite Hsplit, <- Hp, Hline.
    + exfalso. revert H Hne. clear.
      destruct c1 as [[] [] [] [] [] [] [] []]; try done.
  - intros (ws & x & rest & -> & Hws & Hword & Hc & Hx). unfold return_match.
    change (txt "return p.") with ("r"%char :: txt "eturn p.").
    rewrite <- app_comm_cons, drop_while_app by done.
    change ("r"%char :: txt "eturn p." ++ c ++ "("%char :: rest)
      with (("r"%char :: txt "eturn p.") ++ c ++ "("%char :: rest).
    rewrite strip_prefix_app. simpl.
    rewrite take_while_app, drop_while_app by done.
    assert (strip_suffix (txt "Cursor") c = Some x) as ->
      by by apply strip_suffix_Some.
    by destruct x.
Qed.

(** ** The loops of the scanner return, given enough fuel *)

(** The order of the header, the forward and the closing line of a record,
    for [lia]. *)
Ltac span_bounds H :=
  pose proof (fw_body_after _ _ _ H); pose proof (fw_end_after _ _ _ H).

Lemma index_lt {A} (lines : list A) i :
  i < length lines -> exists l, lines !! i = Some l /\ index lines i = Done l.
Proof.
  intros H. destruct (lookup_lt_is_Some_2 lines i H) as [l Hl].
  exists l. unfold index. by rewrite Hl.
Qed.

Lemma skip_blank_spec fuel lines j :
  length lines - j < fuel ->
  exists j', skip_blank fuel lines j = Done j' /\ j <= j' /\
    (forall m l, j <= m < j' -> lines !! m = Some l -> blank l) /\
    (forall l, lines !! j' = Some l -> ~ blank l).
Proof.
  revert j. induction fuel as [|fuel IH]; intros j Hf; [lia|]. simpl.
  destruct (Nat.ltb_spec j (length lines)) as [Hj|Hj].
  - destruct (index_lt lines j Hj) as (l & Hl & ->). simpl.
    destruct (py_not (strip l)) eqn:Hb.
    + destruct (IH (S j)) as (j' & -> & Hle & Hbl & Hst); [lia|].
      exists j'. repeat split; [lia| |done].
      intros m l' Hm Hl'. destruct (decide (m = j)) as [->|].
      * rewrite Hl in Hl'. by injection Hl' as <-.
      * apply (Hbl m); [lia|done].
    + exists j. repeat split; [lia| |].
      * intros m l' Hm. lia.
      * intros l'. rewrite Hl. intros [= <-]. unfold blank. by rewrite Hb.
  - exists j. repeat split; [lia| |].
    + intros m l' Hm. lia.
    + intros l' Hl'. apply lookup_lt_Some in Hl'. lia.
Qed.

Lemma find_close_spec fuel lines k :
  length lines - k < fuel ->
  exists k', find_close fuel lines k = Done k' /\ k <= k' /\
    (forall m l, k <= m < k' -> lines !! m = Some l -> ~ closing l) /\
    (forall l, lines !! k' = Some l -> closing l).
Proof.
  revert k. induction fuel as [|fuel IH]; intros k Hf; [lia|]. simpl.
  destruct (Nat.ltb_spec k (length lines)) as [Hk|Hk].
  - destruct (index_lt lines k Hk) as (l & Hl & ->). simpl.
    unfold text_eqb. destruct (bool_decide_reflect (strip l = txt "}")) as [Hc|Hc]; simpl.
    + exists k. repeat split; [lia| |].
      * intros m l' Hm. lia.
      * intros l'. rewrite Hl. by intros [= <-].
    + destruct (IH (S k)) as (k' & -> & Hle & Hnc & Hst); [lia|].
      exists k'. repeat split; [lia| |done].
      intros m l' Hm Hl'. destruct (decide (m = k)) as [->|].
      * rewrite Hl in Hl'. by injection Hl' as <-.
      * apply (Hnc m); [lia|done].
  - exists k. repeat split; [lia| |].
    + intros m l' Hm. lia.
    + intros l' Hl'. apply lookup_lt_Some in Hl'. lia.
Qed.

Lemma found_from_le lines i i' ds :
  i <= i' -> found_from lines i' ds -> found_from lines i ds.
Proof. intros Hle H. destruct H; constructor; [lia|done..]. Qed.

Lemma scan_body_spec fuel lines i acc :
  i < length lines -> length lines - i <= fuel ->
  scan_body fuel lines i acc = Done (i, acc) \/
  exists d, scan_body fuel lines i acc = Done (end_line d, acc ++ [d]) /\
    start_line d = i /\ dispatcher_at lines d.
Proof.
  intros Hi Hf. unfold scan_body.
  destruct (index_lt lines i Hi) as (line & Hline & ->). simpl.
  destruct (func_match line) as [[[func_name ps] g3]|] eqn:Hfm; [|by left].
  destruct (skip_blank_spec fuel lines (i + 1)) as (j & -> & Hij & Hbl & Hnb); [lia|].
  simpl. destruct (Nat.ltb_spec j (length lines)) as [Hj|Hj]; [|by left].
  destruct (index_lt lines j Hj) as (lj & Hlj & ->). simpl.
  destruct (return_match lj) as [cursor_func|] eqn:Hrm; [|by left].
  unfold text_eqb.
  destruct (bool_decide_reflect (cursor_func = func_name ++ txt "Cursor")) as [Hc|Hc];
    [|by left].
  destruct (find_close_spec fuel lines (j + 1)) as (k & -> & Hjk & Hop & Hcl); [lia|].
  simpl. destruct (Nat.ltb_spec k (length lines)) as [Hk|Hk]; [|by left].
  right. eexists (Dispatcher _ _ _ _ _ _). split; [reflexivity|]. split; [done|].
  destruct (lookup_lt_is_Some_2 lines k Hk) as [lk Hlk].
  exists j. constructor; simpl.
  - by exists line, g3.
  - lia.
  - intros m l Hm. apply Hbl. lia.
  - exists lj. repeat split; [done|by apply Hnb|done].
  - done.
  - lia.
  - intros m l Hm. apply Hop. lia.
  - exists lk. split; [done|by apply Hcl].
Qed.

Lemma scan_spec fuel lines i acc :
  length lines - i < fuel ->
  exists new, scan fuel lines i acc = Done (acc ++ new) /\ found_from lines i new.
Proof.
  revert i acc. induction fuel as [|fuel IH]; intros i acc Hf; [lia|]. simpl.
  destruct (Nat.ltb_spec i (length lines)) as [Hi|Hi].
  - destruct (scan_body_spec fuel lines i acc Hi) as [->|(d & -> & Hs & Hd)]; [lia| |].
    + simpl. destruct (IH (i + 1) acc) as (new & -> & Hnew); [lia|].
      exists new. split; [done|]. apply (found_from_le _ _ (i + 1)); [lia|done].
    + simpl. destruct Hd as [j Hj].
      assert (end_line d < length lines) as Hk.
      { destruct (fw_close _ _ _ Hj) as (c & Hc & _). by apply lookup_lt_Some in Hc. }
      span_bounds Hj.
      destruct (IH (end_line d + 1) (acc ++ [d])) as (new & -> & Hnew); [lia|].
      exists (d :: new). split; [by rewrite <- app_assoc|].
      constructor; [lia|by exists j|by rewrite Nat.add_1_r in Hnew].
  - exists []. split; [by rewrite app_nil_r|constructor].
Qed.

(** More fuel than needed changes nothing. *)
Lemma skip_blank_fuel f1 f2 lines j :
  length lines - j < f1 -> length lines - j < f2 ->
  skip_blank f1 lines j = skip_blank f2 lines j.
Proof.
  revert f2 j. induction f1 as [|f1 IH]; intros [|f2] j H1 H2; try lia. simpl.
  destruct (Nat.ltb_spec j (length lines)) as [Hj|Hj]; [|done].
  destruct (index lines j) as [l| |]; simpl; [|done..].
  destruct (py_not (strip l)); [|done]. apply IH; lia.
Qed.

Lemma find_close_fuel f1 f2 lines k :
  length lines - k < f1 -> length lines - k < f2 ->
  find_close f1 lines k = find_close f2 lines k.
Proof.
  revert f2 k. induction f1 as [|f1 IH]; intros [|f2] k H1 H2; try lia. simpl.
  destruct (Nat.ltb_spec k (length lines)) as [Hk|Hk]; [|done].
  destruct (index lines k) as [l| |]; simpl; [|done..].
  destruct (negb (text_eqb (strip l) (txt "}"))); [|done]. apply IH; lia.
Qed.

Lemma scan_body_fuel f1 f2 lines i acc :
  i < length lines -> length lines - i <= f1 -> length lines - i <= f2 ->
  scan_body f1 lines i acc = scan_body f2 lines i acc.
Proof.
  intros Hi H1 H2. unfold scan_body.
  destruct (index lines i) as [line| |]; simpl; [|done..].
  destruct (func_match line) as [[[func_name ps] g3]|]; [|done].
  rewrite (skip_blank_fuel f1 f2) by lia.
  destruct (skip_blank_spec f2 lines (i + 1)) as (j & -> & Hij & _); [lia|]. simpl.
  destruct (j <? length lines); [|done].
  destruct (index lines j) as [lj| |]; simpl; [|done..].
  destruct (return_match lj) as [cursor_func|]; [|done].
  destruct (text_eqb cursor_func (func_name ++ txt "Cursor")); [|done].
  by rewrite (find_close_fuel f1 f2) by lia.
Qed.

Lemma scan_fuel f1 f2 lines i acc :
  length lines - i < f1 -> length lines - i < f2 ->
  scan f1 lines i acc = scan f2 lines i acc.
Proof.
  revert f2 i acc. induction f1 as [|f1 IH]; intros [|f2] i acc H1 H2; try lia.
  simpl. destruct (Nat.ltb_spec i (length lines)) as [Hi|Hi]; [|done].
  rewrite (scan_body_fuel f1 f2) by lia.
  destruct (scan_body_spec f2 lines i acc Hi) as [->|(d & -> & Hs & j & Hj)]; [lia| |];
    simpl.
  - apply IH; lia.
  - span_bounds Hj.
    apply IH; lia.
Qed.

Lemma find_dispatchers_run_enough content fuel :
  length (split_lines content) < fuel ->
  find_dispatchers_run fuel content = Done (find_dispatchers content).
Proof.
  intros Hf. unfold find_dispatchers, find_dispatchers_run.
  rewrite (scan_fuel fuel (S (length (split_lines content)))) by lia.
  by destruct (scan_spec (S (length (split_lines content))) (split_lines content) 0 [])
    as (new & -> & _); [lia|].
Qed.

Lemma find_dispatchers_found content :
  found_from (split_lines content) 0 (find_dispatchers content).
Proof.
  unfold find_dispatchers, find_dispatchers_run.
  by destruct (scan_spec (S (length (split_lines content))) (split_lines content) 0 [])
    as (new & -> & Hnew); [lia|].
Qed.

(** ** Consequences for the list of records *)

Lemma forwards_at_lt lines d j : forwards_at lines d j -> start_line d < end_line d.
Proof.
  intros H. pose proof (fw_body_after _ _ _ H). pose proof (fw_end_after _ _ _ H). lia.
Qed.

Lemma dispatcher_at_lt lines d : dispatcher_at lines d -> start_line d < end_line d.
Proof. intros [j H]. by eapply forwards_at_lt. Qed.

Lemma dispatcher_at_end lines d :
  dispatcher_at lines d ->
  exists closer, lines !! end_line d = Some closer /\ closing closer.
Proof. intros [j H]. apply (fw_close _ _ _ H). Qed.

Lemma dispatcher_at_bound lines d : dispatcher_at lines d -> end_line d < length lines.
Proof.
  intros H. destruct (dispatcher_at_end _ _ H) as (c & Hc & _).
  by apply lookup_lt_Some in Hc.
Qed.

(** A record is a span of at least two lines inside the document, for [lia]. *)
Ltac record_bounds H :=
  pose proof (dispatcher_at_lt _ _ H); pose proof (dispatcher_at_bound _ _ H).

Lemma found_from_Forall lines i ds :
  found_from lines i ds ->
  Forall (fun d => i <= start_line d /\ dispatcher_at lines d) ds.
Proof.
  induction 1 as [|i d ds Hi Hd _ IH]; constructor; [done|].
  eapply Forall_impl; [exact IH|]. simpl. intros d' [Hle Hd'].
  split; [|done]. pose proof (dispatcher_at_lt _ _ Hd). lia.
Qed.

Lemma found_from_sorted lines i ds :
  found_from lines i ds ->
  StronglySorted (fun d1 d2 => end_line d1 < start_line d2) ds.
Proof.
  induction 1 as [|i d ds Hi Hd Hds IH]; constructor; [done|].
  eapply Forall_impl; [exact (found_from_Forall _ _ _ Hds)|].
  simpl. intros d' [Hle _]. lia.
Qed.

Lemma find_dispatchers_at content d :
  d ∈ find_dispatchers content -> dispatcher_at (split_lines content) d.
Proof.
  intros Hd. pose proof (found_from_Forall _ _ _ (find_dispatchers_found content)) as H.
  rewrite Forall_forall in H. by apply H.
Qed.

(** The first non-blank line after a line is unique. *)
Lemma first_non_blank_unique (lines : list text) i j j' body body' :
  i < j -> (forall m l, i < m < j -> lines !! m = Some l -> blank l) ->
  lines !! j = Some body -> ~ blank body ->
  i < j' -> (forall m l, i < m < j' -> lines !! m = Some l -> blank l) ->
  lines !! j' = Some body' -> ~ blank body' ->
  j = j'.
Proof.
  intros Hj Hbl Hb Hnb Hj' Hbl' Hb' Hnb'.
  destruct (Nat.lt_trichotomy j j') as [Hlt|[->|Hlt]]; [|done|].
  - exfalso. apply Hnb. apply (Hbl' j); [lia|done].
  - exfalso. apply Hnb'. apply (Hbl j'); [lia|done].
Qed.

(** The header pattern fixes the receiver and the prefix of the name. *)
Lemma func_match_shape line fn ps g3 :
  func_match line = Some (fn, ps, g3) ->
  exists w rest,
    line = txt "func (p *Parser) parse" ++ w ++ "("%char :: rest /\
    w <> [] /\ Forall (fun c => is_word c = true) w /\ fn = txt "parse" ++ w.
Proof.
  unfold func_match. intros H.
  destruct (strip_prefix (txt "func (p *Parser) parse") line) as [rest|] eqn:Hp;
    simpl in H; [|done].
  apply strip_prefix_Some in Hp.
  pose proof (take_drop_while is_word rest) as Hsplit.
  pose proof (take_while_Forall is_word rest) as Hw.
  destruct (take_while is_word rest) as [|c w] eqn:Hw0; [done|].
  destruct (drop_while is_word rest) as [|c1 rest1]; [done|].
  destruct (Ascii.eqb_spec c1 "("%char) as [->|Hne].
  - destruct (lazy_until ")"%char rest1) as [[g2 rest2]|]; simpl in H; [|done].
    destruct (lazy_until "{"%char rest2) as [[g3' rest3]|]; simpl in H; [|done].
    injection H as <- <- <-.
    exists (c :: w), rest1. by rewrite Hp, <- Hsplit.
  - exfalso. revert H Hne. clear.
    destruct c1 as [[] [] [] [] [] [] [] []]; try done.
Qed.

(** ** The scanner *)

Lemma found_from_sorted_start lines i ds :
  found_from lines i ds ->
  StronglySorted (fun d1 d2 => start_line d1 < start_line d2) ds.
Proof.
  induction 1 as [|i d ds Hi Hd Hds IH]; constructor; [done|].
  eapply Forall_impl; [exact (found_from_Forall _ _ _ Hds)|].
  simpl. intros d' [Hle _]. pose proof (dispatcher_at_lt _ _ Hd). lia.
Qed.

(** C7.  The records returned by [find_dispatchers] come in strictly
    ascending order of [start_line]; each has [start_line < end_line]; and
    every record ends before any later record starts, so no two spans
    overlap. *)
Theorem find_dispatchers_ordered content :
  Forall (fun d => start_line d < end_line d) (find_dispatchers content) /\
  StronglySorted (fun d1 d2 => start_line d1 < start_line d2)
    (find_dispatchers content) /\
  StronglySorted (fun d1 d2 => end_line d1 < start_line d2)
    (find_dispatchers content).
Proof.
  pose proof (find_dispatchers_found content) as H. split; [|split].
  - eapply Forall_impl; [exact (found_from_Forall _ _ _ H)|].
    simpl. intros d [_ Hd]. by eapply dispatcher_at_lt.
  - by eapply found_from_sorted_start.
  - by eapply found_from_sorted.
Qed.

(** C8.  Every record returned by [find_dispatchers] has
    [cursor_name = name ++ "Cursor"], where [name] is the identifier captured
    from the header at [start_line] and [cursor_name] is the identifier that
    the first non-blank line after the header forwards to. *)
Theorem recorded_delegate_is_suffixed content d :
  d ∈ find_dispatchers content ->
  cursor_name d = name d ++ txt "Cursor" /\
  exists header g3 j body,
    split_lines content !! start_line d = Some header /\
    func_match header = Some (name d, params d, g3) /\
    start_line d < j /\
    (forall m l, start_line d < m < j -> split_lines content !! m = Some l -> blank l) /\
    split_lines content !! j = Some body /\ ~ blank body /\
    return_match body = Some (cursor_name d).
Proof.
  intros Hd. destruct (find_dispatchers_at _ _ Hd) as [j Hj].
  split; [apply (fw_suffix _ _ _ Hj)|].
  destruct (fw_header _ _ _ Hj) as (header & g3 & Hh & Hm & _).
  destruct (fw_body _ _ _ Hj) as (body & Hb & Hnb & Hr).
  exists header, g3, j, body.
  repeat split; [done|done|apply (fw_body_after _ _ _ Hj)|apply (fw_blank _ _ _ Hj)|done..].
Qed.

Lemma recorded_delegate_is_suffixed_witness :
  let d := Dispatcher (txt "parseExpr") (txt "parseExprCursor") 4 6
             (txt "x int") (txt "Node") in
  d ∈ find_dispatchers doc_parse_expr /\
  cursor_name d = name d ++ txt "Cursor".
Proof.
  intros d.
  assert (d ∈ find_dispatchers doc_parse_expr) as Hd by (vm_compute; left).
  split; [exact Hd|].
  exact (proj1 (recorded_delegate_is_suffixed doc_parse_expr d Hd)).
Defined.

(** C9.  [find_dispatchers] returns on every document: with more fuel than
    there are lines no loop runs out of it and no index is out of range.  Every
    record lies within the document, and text none of whose lines matches the
    header pattern gives the empty list. *)
Theorem find_dispatchers_total content fuel :
  length (split_lines content) < fuel ->
  find_dispatchers_run fuel content = Done (find_dispatchers content) /\
  Forall (fun d => end_line d < length (split_lines content))
    (find_dispatchers content) /\
  ((forall l, l ∈ split_lines content -> func_match l = None) ->
   find_dispatchers content = []).
Proof.
  intros Hf. split; [by apply find_dispatchers_run_enough|]. split.
  - eapply Forall_impl; [exact (found_from_Forall _ _ _ (find_dispatchers_found content))|].
    simpl. intros d [_ Hd]. by eapply dispatcher_at_bound.
  - intros Hno. destruct (find_dispatchers content) as [|d ds] eqn:E; [done|].
    exfalso. assert (d ∈ find_dispatchers content) as Hd by (rewrite E; left).
    destruct (find_dispatchers_at _ _ Hd) as [j Hj].
    destruct (fw_header _ _ _ Hj) as (header & g3 & Hh & Hm & _).
    rewrite (Hno header) in Hm; [done|]. by eapply list_elem_of_lookup_2.
Qed.

Lemma find_dispatchers_total_witness :
  length (split_lines doc_malformed) < 2 /\
  find_dispatchers_run 2 doc_malformed = Done [].
Proof.
  assert (length (split_lines doc_malformed) < 2) as Hf by (vm_compute; lia).
  split; [exact Hf|].
  exact (proj1 (find_dispatchers_total doc_malformed 2 Hf)).
Defined.

(** C3, as stated, fails: a function of two statements is recorded when the
    first of them is the forward. *)
Lemma two_statement_function_recorded :
  let d := Dispatcher (txt "parseA") (txt "parseACursor") 0 3 (txt "") (txt "Node") in
  d ∈ find_dispatchers doc_forward_first /\
  body_statements (split_lines doc_forward_first) d = 2.
Proof. split; [vm_compute; left|reflexivity]. Qed.

(** C3, amended.  A function is never recorded when the first non-blank line
    after its header is not a forward to the header's name with [Cursor]
    appended, whatever the lines after it look like. *)
Theorem not_forward_first_never_recorded content i header fn ps g3 j body :
  split_lines content !! i = Some header ->
  func_match header = Some (fn, ps, g3) ->
  i < j ->
  (forall m l, i < m < j -> split_lines content !! m = Some l -> blank l) ->
  split_lines content !! j = Some body ->
  ~ blank body ->
  return_match body <> Some (fn ++ txt "Cursor") ->
  Forall (fun d => start_line d <> i) (find_dispatchers content).
Proof.
  intros Hh Hm Hij Hbl Hb Hnb Hr. apply Forall_forall. intros d Hd <-.
  destruct (find_dispatchers_at _ _ Hd) as [j' Hj'].
  destruct (fw_header _ _ _ Hj') as (header' & g3' & Hh' & Hm' & _).
  rewrite Hh in Hh'. injection Hh' as <-. rewrite Hm in Hm'. injection Hm' as -> _ _.
  destruct (fw_body _ _ _ Hj') as (body' & Hb' & Hnb' & Hr').
  assert (j = j') as <-.
  { eapply first_non_blank_unique; [exact Hij|exact Hbl|exact Hb|exact Hnb| | | |].
    - apply (fw_body_after _ _ _ Hj').
    - apply (fw_blank _ _ _ Hj').
    - exact Hb'.
    - exact Hnb'. }
  rewrite Hb in Hb'. injection Hb' as <-.
  apply Hr. rewrite Hr'. f_equal. apply (fw_suffix _ _ _ Hj').
Qed.

Lemma not_forward_first_never_recorded_witness :
  find_dispatchers doc_forward_second <> [] /\
  Forall (fun d => start_line d <> 0) (find_dispatchers doc_forward_second).
Proof.
  split; [vm_compute; discriminate|].
  apply (not_forward_first_never_recorded doc_forward_second 0
           (txt "func (p *Parser) parseA() Node {") (txt "parseA") (txt "") (txt " Node ")
           1 (tab :: txt "p.advance()")).
  - reflexivity.
  - reflexivity.
  - lia.
  - intros m l Hm. lia.
  - reflexivity.
  - vm_compute. discriminate.
  - vm_compute. discriminate.
Defined.

(** ** The eliminator *)

Lemma insert_desc_last d l :
  Forall (fun d' => start_line d < start_line d') l -> insert_desc d l = l ++ [d].
Proof.
  induction 1 as [|d' l Hd' _ IH]; [done|]. simpl.
  destruct (Nat.leb_spec (start_line d') (start_line d)); [lia|]. by rewrite IH.
Qed.

(** On records in ascending order the sort is a reversal. *)
Lemma sorted_desc_ascending ds :
  StronglySorted (fun d1 d2 => start_line d1 < start_line d2) ds ->
  sorted_desc ds = reverse ds.
Proof.
  induction 1 as [|d ds _ IH Hd]; [done|]. simpl.
  rewrite IH, reverse_cons. apply insert_desc_last. by apply Forall_reverse.
Qed.

Lemma remove_loop_app l d lines :
  remove_loop (l ++ [d]) lines =
  let* lines' := remove_loop l lines in remove_one lines' d.
Proof.
  revert lines. induction l as [|d' l IH]; intros lines; simpl.
  - by destruct (remove_one lines d).
  - destruct (remove_one lines d') as [lines'| |]; simpl; [apply IH|done..].
Qed.

(** The backward loop reads only the lines before [start]. *)
Lemma extend_start_prefix (lines lines' : list text) start :
  (forall m, m < start -> lines !! m = lines' !! m) ->
  extend_start lines start = extend_start lines' start.
Proof.
  induction start as [|p IH]; intros H; [done|]. simpl.
  unfold index. rewrite <- (H p) by lia.
  destruct (lines !! p) as [l|]; simpl; [|done].
  destruct (py_not (strip l)); [|done]. apply IH. intros m Hm. apply H. lia.
Qed.

Lemma extend_start_spec lines start :
  start <= length lines ->
  exists f, extend_start lines start = Done f /\ f <= start /\
    (forall m l, f <= m < start -> lines !! m = Some l -> blank l) /\
    anchored lines f.
Proof.
  induction start as [|p IH]; intros Hs.
  - exists 0. repeat split; [lia| |by left]. intros m l Hm. lia.
  - simpl. destruct (index_lt lines p) as (l & Hl & ->); [lia|]. simpl.
    destruct (py_not (strip l)) eqn:Hb.
    + destruct IH as (f & -> & Hf & Hbl & Ha); [lia|].
      exists f. repeat split; [lia| |done].
      intros m l' Hm Hl'. destruct (decide (m = p)) as [->|].
      * rewrite Hl in Hl'. by injection Hl' as <-.
      * apply (Hbl m); [lia|done].
    + exists (S p). repeat split; [lia| |].
      * intros m l' Hm. lia.
      * right. exists l. simpl. rewrite Nat.sub_0_r. split; [done|].
        unfold blank. by rewrite Hb.
Qed.

(** The extension does not cross a non-blank line. *)
Lemma extend_start_anchor lines start f i :
  extend_start lines start = Done f -> start <= length lines ->
  anchored lines i -> i <= start -> i <= f.
Proof.
  intros E Hs Ha Hi.
  destruct (extend_start_spec lines start Hs) as (f' & E' & Hf & Hbl & _).
  rewrite E in E'. injection E' as <-.
  destruct Ha as [->|(l & Hl & Hnb)]; [lia|].
  destruct (Nat.le_gt_cases i f) as [|Hlt]; [done|].
  exfalso. apply Hnb. apply (Hbl (i - 1)); [lia|done].
Qed.

(** The run of blank lines before [start], when it is known. *)
Lemma extend_start_run lines start f :
  f <= start <= length lines ->
  (forall m l, f <= m < start -> lines !! m = Some l -> blank l) ->
  anchored lines f ->
  extend_start lines start = Done f.
Proof.
  intros Hs Hbl Ha.
  destruct (extend_start_spec lines start) as (f' & E & Hf & Hbl' & Ha'); [lia|].
  rewrite E. f_equal.
  assert (f <= f') by (eapply extend_start_anchor; [exact E|lia|exact Ha|lia]).
  destruct Ha' as [->|(l & Hl & Hnb)]; [lia|].
  destruct (Nat.le_gt_cases f' f) as [|Hlt]; [lia|].
  exfalso. apply Hnb. apply (Hbl (f' - 1)); [lia|done].
Qed.

Lemma deletion_start_spec lines start :
  start <= length lines ->
  exists f, extend_start lines start = Done f /\
    deletion_start lines start = Done (if 0 <? f then f + 1 else f).
Proof.
  intros Hs. destruct (extend_start_spec lines start Hs) as (f & E & _).
  exists f. split; [done|]. unfold deletion_start. by rewrite E.
Qed.

(** *** The forward pass *)

Lemma forward_pass_app spans i l1 l2 :
  forward_pass spans i (l1 ++ l2) =
  forward_pass spans i l1 ++ forward_pass spans (i + length l1) l2.
Proof.
  revert i. induction l1 as [|l l1 IH]; intros i; simpl.
  - by rewrite Nat.add_0_r.
  - rewrite IH, Nat.add_succ_r. simpl. by destruct (covered spans i).
Qed.

Lemma forward_pass_ext spans spans' i ls :
  (forall m, i <= m < i + length ls -> covered spans m = covered spans' m) ->
  forward_pass spans i ls = forward_pass spans' i ls.
Proof.
  revert i. induction ls as [|l ls IH]; intros i H; [done|]. simpl in *.
  rewrite (H i) by lia. rewrite (IH (S i)); [done|]. intros m Hm. apply H. lia.
Qed.

Lemma forward_pass_none spans i ls :
  (forall m, i <= m < i + length ls -> covered spans m = false) ->
  forward_pass spans i ls = ls.
Proof.
  revert i. induction ls as [|l ls IH]; intros i H; [done|]. simpl in *.
  rewrite (H i) by lia. rewrite (IH (S i)); [done|]. intros m Hm. apply H. lia.
Qed.

Lemma forward_pass_all spans i ls :
  (forall m, i <= m < i + length ls -> covered spans m = true) ->
  forward_pass spans i ls = [].
Proof.
  revert i. induction ls as [|l ls IH]; intros i H; [done|]. simpl in *.
  rewrite (H i) by lia. apply (IH (S i)). intros m Hm. apply H. lia.
Qed.

Lemma covered_cons span spans m :
  covered (span :: spans) m = in_span m span || covered spans m.
Proof. reflexivity. Qed.

Lemma covered_below spans i m :
  Forall (fun span => i <= fst span) spans -> m < i -> covered spans m = false.
Proof.
  induction 1 as [|span spans Hs _ IH]; intros Hm; [done|].
  rewrite covered_cons, IH by done. unfold in_span.
  destruct (Nat.leb_spec (fst span) m); [lia|done].
Qed.

(** Before any line of a span, nothing is covered by it. *)
Lemma in_span_false m a e : m < a \/ e < m -> in_span m (a, e) = false.
Proof.
  intros H. unfold in_span. simpl.
  destruct (Nat.leb_spec a m); destruct (Nat.leb_spec m e); simpl; try done; lia.
Qed.

Lemma in_span_true m a e : a <= m <= e -> in_span m (a, e) = true.
Proof.
  intros H. unfold in_span. simpl.
  destruct (Nat.leb_spec a m); destruct (Nat.leb_spec m e); simpl; try done; lia.
Qed.

(** The forward pass over a document one of whose spans is [(a, e)], all
    the others lying after line [e]. *)
Lemma forward_pass_first_span (lines : list text) a e spans :
  a <= S e -> e < length lines ->
  Forall (fun span => S e <= fst span) spans ->
  forward_pass ((a, e) :: spans) 0 lines =
  take a lines ++ forward_pass spans (S e) (drop (S e) lines).
Proof.
  intros Ha He Hspans.
  assert (lines = take a lines ++ take (S e - a) (drop a lines) ++ drop (S e) lines)
    as Hdec.
  { rewrite app_assoc, take_take_drop.
    replace (a + (S e - a)) with (S e) by lia. by rewrite take_drop. }
  etrans; [apply (f_equal (forward_pass _ 0) Hdec)|].
  rewrite !forward_pass_app.
  rewrite !length_take, length_drop.
  replace (0 + a `min` length lines) with a by lia.
  replace (a + (S e - a) `min` (length lines - a)) with (S e) by lia.
  rewrite forward_pass_none; [rewrite forward_pass_all|].
  - simpl. f_equal. apply forward_pass_ext. intros m Hm.
    rewrite covered_cons, in_span_false; [done|lia].
  - intros m Hm. rewrite length_take, length_drop in Hm.
    rewrite covered_cons, in_span_true; [done|lia].
  - intros m Hm. rewrite length_take in Hm.
    rewrite covered_cons, in_span_false by lia.
    apply (covered_below _ (S e)); [done|lia].
Qed.

(** The forward pass leaves the lines before every span as they are. *)
Lemma forward_pass_prefix (lines : list text) i spans :
  i <= length lines ->
  Forall (fun span => i <= fst span) spans ->
  forward_pass spans 0 lines = take i lines ++ forward_pass spans i (drop i lines).
Proof.
  intros Hi Hspans.
  etrans; [apply (f_equal (forward_pass _ 0) (eq_sym (take_drop i lines)))|].
  rewrite forward_pass_app, length_take.
  replace (0 + i `min` length lines) with i by lia.
  rewrite forward_pass_none; [done|].
  intros m Hm. rewrite length_take in Hm. apply (covered_below _ i); [done|lia].
Qed.

(** Deleting the recorded spans from the last to the first gives the forward
    pass over the spans computed on the document as it was. *)
Lemma remove_loop_forward lines i ds :
  found_from lines i ds -> anchored lines i ->
  exists spans,
    deletion_spans lines ds = Done spans /\
    Forall (fun span => i <= fst span) spans /\
    remove_loop (reverse ds) lines = Done (forward_pass spans 0 lines).
Proof.
  induction 1 as [i|i d ds Hi Hd Hds IH]; intros Ha.
  - exists []. repeat split; [constructor|].
    simpl. f_equal. symmetry. by apply forward_pass_none.
  - pose proof (dispatcher_at_lt _ _ Hd) as Hlt.
    pose proof (dispatcher_at_bound _ _ Hd) as Hbound.
    destruct (dispatcher_at_end _ _ Hd) as (closer & Hcl & Hclosing).
    destruct IH as (spans & Espans & Hspans & Eloop).
    { right. exists closer. simpl. rewrite Nat.sub_0_r.
      split; [done|by apply closing_not_blank]. }
    destruct (extend_start_spec lines (start_line d)) as (f & Ef & Hf & _); [lia|].
    assert (i <= f) as Hif by (eapply extend_start_anchor; [exact Ef|lia|exact Ha|lia]).
    set (a := if 0 <? f then f + 1 else f).
    assert (i <= a /\ a <= end_line d) as [Hia Hae].
    { unfold a. destruct (0 <? f); lia. }
    assert (deletion_start lines (start_line d) = Done a) as Edel.
    { unfold deletion_start. by rewrite Ef. }
    exists ((a, end_line d) :: spans). split; [|split].
    + simpl. by rewrite Edel, Espans.
    + constructor; [done|]. eapply Forall_impl; [exact Hspans|]. simpl. lia.
    + rewrite reverse_cons, remove_loop_app, Eloop. simpl.
      rewrite (forward_pass_first_span lines a (end_line d) spans) by (done || lia).
      rewrite (forward_pass_prefix lines (S (end_line d)) spans) by (done || lia).
      set (rest := forward_pass spans (S (end_line d)) (drop (S (end_line d)) lines)).
      unfold remove_one, deletion_start.
      rewrite (extend_start_prefix _ lines).
      * rewrite Ef. simpl. fold a. f_equal. unfold del_slice.
        destruct (Nat.ltb_spec a (end_line d + 1)); [|lia].
        rewrite take_app_le by (rewrite length_take; lia).
        rewrite take_take. replace (a `min` S (end_line d)) with a by lia.
        rewrite drop_app_length'; [done|]. rewrite length_take. lia.
      * intros m Hm. rewrite lookup_app_l by (rewrite length_take; lia).
        apply lookup_take_lt. lia.
Qed.

(** The eliminator on the records of the scanner: it returns, and what it
    returns is the forward pass. *)
Lemma remove_dispatchers_spans content :
  exists spans,
    deletion_spans (split_lines content) (find_dispatchers content) = Done spans /\
    remove_dispatchers content (find_dispatchers content) =
    Done (join_lines (forward_pass spans 0 (split_lines content))).
Proof.
  pose proof (find_dispatchers_found content) as Hfound.
  destruct (remove_loop_forward _ _ _ Hfound) as (spans & Espans & _ & Eloop);
    [by left|].
  exists spans. split; [done|]. unfold remove_dispatchers.
  by rewrite (sorted_desc_ascending _ (found_from_sorted_start _ _ _ Hfound)), Eloop.
Qed.

Lemma found_from_app_inv lines i before d after :
  found_from lines i (before ++ d :: after) ->
  dispatcher_at lines d /\ found_from lines (S (end_line d)) after.
Proof.
  revert i. induction before as [|d' before IH]; intros i H; simpl in H.
  - by inversion H.
  - inversion H; subst. by eapply IH.
Qed.

Lemma StronglySorted_reverse {A} (R : relation A) l :
  StronglySorted R l -> StronglySorted (flip R) (reverse l).
Proof.
  induction 1 as [|x l _ IH Hx]; [constructor|].
  rewrite reverse_cons. apply StronglySorted_app_2; [|done|repeat constructor].
  intros x1 x2 Hx1 Hx2. apply list_elem_of_singleton in Hx2 as ->.
  rewrite Forall_forall in Hx. apply Hx. by apply elem_of_reverse.
Qed.

(** *** The spans of the design document *)

Lemma blank_run_start_le lines start : blank_run_start lines start <= start.
Proof.
  induction start as [|before IH]; simpl; [done|].
  destruct (lines !! before) as [l|]; [|done].
  destruct (py_not (strip l)); lia.
Qed.

Lemma blank_run_start_blank lines start :
  blank_run_start lines start < start ->
  exists l, lines !! (start - 1) = Some l /\ blank l.
Proof.
  destruct start as [|before]; simpl; [lia|]. rewrite Nat.sub_0_r.
  destruct (lines !! before) as [l|]; [|lia].
  destruct (py_not (strip l)) eqn:E; [|lia]. intros _. by exists l.
Qed.

(** Within the document, the loop of the code stops where the run of blank
    lines begins. *)
Lemma extend_start_blank_run lines start :
  start <= length lines ->
  extend_start lines start = Done (blank_run_start lines start).
Proof.
  induction start as [|before IH]; simpl; intros Hlen; [done|].
  unfold index. destruct (lookup_lt_is_Some_2 lines before) as [l ->]; [lia|].
  simpl. destruct (py_not (strip l)); [apply IH; lia|done].
Qed.

(** Where the record starts the document or follows a blank line, the code
    deletes from the start of the design document, but for a run of blank
    lines that begins on the first line. *)
Lemma deletion_start_guarded lines start :
  start <= length lines ->
  (start = 0 \/ exists l, lines !! (start - 1) = Some l /\ blank l) ->
  deletion_start lines start = Done (guarded_start lines start).
Proof.
  intros Hlen H. unfold deletion_start.
  rewrite extend_start_blank_run by done. simpl. f_equal.
  unfold guarded_start, extended_start.
  assert (blank_run_start lines start = 0 \/
          0 < blank_run_start lines start < start) as Hrun.
  { destruct H as [->|(l & Hl & Hblank)]; [by left|].
    destruct start as [|before]; [by left|]. simpl in *.
    rewrite Nat.sub_0_r in Hl. rewrite Hl, Hblank.
    pose proof (blank_run_start_le lines before). lia. }
  destruct Hrun as [->|Hrun]; [done|].
  destruct (Nat.ltb_spec 0 (blank_run_start lines start)); [|lia].
  destruct (Nat.eqb_spec (blank_run_start lines start) 0); [lia|].
  destruct (Nat.ltb_spec (blank_run_start lines start) start); [done|lia].
Qed.

Lemma deletion_spans_guarded lines ds :
  Forall (fun d =>
    start_line d <= length lines /\
    (start_line d = 0 \/
     exists l, lines !! (start_line d - 1) = Some l /\ blank l)) ds ->
  deletion_spans lines ds = Done (guarded_spans lines ds).
Proof.
  induction 1 as [|d ds [Hlen Hd] _ IH]; simpl; [done|].
  by rewrite deletion_start_guarded, IH.
Qed.

Lemma guarded_spans_extended lines ds :
  Forall (fun d => 0 < blank_run_start lines (start_line d)) ds ->
  guarded_spans lines ds = extended_spans lines ds.
Proof.
  induction 1 as [|d ds Hd _ IH]; simpl; [done|]. f_equal; [|done].
  unfold guarded_start.
  by destruct (Nat.eqb_spec (blank_run_start lines (start_line d)) 0); [lia|].
Qed.

(** The eliminator and the forward pass over the spans of the design
    document, for records that start the document or follow a blank line. *)
Lemma remove_dispatchers_guarded content :
  Forall (fun d =>
    start_line d = 0 \/
    exists l, split_lines content !! (start_line d - 1) = Some l /\ blank l)
    (find_dispatchers content) ->
  remove_dispatchers content (find_dispatchers content) =
  Done (join_lines
          (forward_pass
             (guarded_spans (split_lines content) (find_dispatchers content))
             0 (split_lines content))).
Proof.
  intros H. destruct (remove_dispatchers_spans content) as (spans & Espans & ->).
  rewrite deletion_spans_guarded in Espans; [by injection Espans as <-|].
  rewrite Forall_forall in H |- *. intros d Hd. split; [|by apply H].
  pose proof (find_dispatchers_at _ _ Hd) as Hat.
  pose proof (dispatcher_at_lt _ _ Hat). pose proof (dispatcher_at_bound _ _ Hat).
  lia.
Qed.

(** C6, as stated, fails: the forward pass over the extended spans of the
    design document keeps one of the two blank lines at the top of
    [doc_two_after_blanks]; the code deletes both.  Neither record of that
    document follows a non-blank line. *)
Lemma top_blank_line_not_kept :
  let lines := split_lines doc_two_after_blanks in
  let ds := find_dispatchers doc_two_after_blanks in
  ds = [Dispatcher (txt "parseA") (txt "parseACursor") 2 4 (txt "") (txt "Node");
        Dispatcher (txt "parseB") (txt "parseBCursor") 7 9 (txt "x int") (txt "Node")] /\
  extended_spans lines ds = [(1, 4); (6, 9)] /\
  forward_pass (extended_spans lines ds) 0 lines = [txt ""; txt ""; txt "rest"] /\
  remove_dispatchers doc_two_after_blanks ds = Done (join_lines [txt ""; txt "rest"]) /\
  remove_dispatchers doc_two_after_blanks ds <>
    Done (join_lines (forward_pass (extended_spans lines ds) 0 lines)).
Proof.
  intros lines ds.
  split; [vm_compute; reflexivity|]. split; [vm_compute; reflexivity|].
  split; [vm_compute; reflexivity|]. split; [vm_compute; reflexivity|].
  vm_compute. discriminate.
Qed.

(** Nor does the code follow the forward pass of the design document where a
    record comes directly after a line of code: on [doc_commented] that pass
    deletes lines 1 to 3, and the code keeps line 1. *)
Lemma header_outside_forward_pass :
  let lines := split_lines doc_commented in
  let ds := find_dispatchers doc_commented in
  extended_spans lines ds = [(1, 3)] /\
  remove_dispatchers doc_commented ds <>
    Done (join_lines (forward_pass (extended_spans lines ds) 0 lines)).
Proof. intros lines ds. split; [vm_compute; reflexivity|vm_compute; discriminate]. Qed.

(** C6, amended.  [remove_dispatchers] visits the records of the scanner
    from the largest [start_line] to the smallest.  When a record is about to be
    processed, after all the later ones, the lines up to its [end_line] are
    still those of the original document.  When every record starts the
    document or follows a blank line, the result is the one forward pass that
    copies the lines outside the extended spans of the design document, but
    for a run of blank lines that begins on the first line, which is deleted
    whole; when moreover every run of blank lines before a record follows a
    line of the document, the spans are exactly those of the design
    document. *)
Theorem remove_dispatchers_forward_pass content :
  let lines := split_lines content in
  let ds := find_dispatchers content in
  StronglySorted (fun d1 d2 => start_line d2 < start_line d1) (sorted_desc ds) /\
  (forall before d after,
     ds = before ++ d :: after ->
     sorted_desc ds = reverse after ++ d :: reverse before /\
     exists lines',
       remove_loop (reverse after) lines = Done lines' /\
       take (S (end_line d)) lines' = take (S (end_line d)) lines) /\
  (Forall (fun d =>
     start_line d = 0 \/
     exists l, lines !! (start_line d - 1) = Some l /\ blank l) ds ->
   remove_dispatchers content ds =
   Done (join_lines (forward_pass (guarded_spans lines ds) 0 lines))) /\
  (Forall (fun d => 0 < blank_run_start lines (start_line d) < start_line d) ds ->
   remove_dispatchers content ds =
   Done (join_lines (forward_pass (extended_spans lines ds) 0 lines))).
Proof.
  intros lines ds. subst lines ds.
  pose proof (find_dispatchers_found content) as Hfound.
  pose proof (sorted_desc_ascending _ (found_from_sorted_start _ _ _ Hfound)) as Hsort.
  split; [|split; [|split]].
  - rewrite Hsort.
    apply (StronglySorted_reverse (fun d1 d2 => start_line d1 < start_line d2)).
    by eapply found_from_sorted_start.
  - intros before d after E. rewrite Hsort, E. split.
    { by rewrite reverse_app, reverse_cons, <- app_assoc. }
    rewrite E in Hfound. apply found_from_app_inv in Hfound as [Hd Hafter].
    destruct (dispatcher_at_end _ _ Hd) as (closer & Hcl & Hclosing).
    pose proof (dispatcher_at_bound _ _ Hd) as Hbound.
    destruct (remove_loop_forward _ _ _ Hafter) as (spans & _ & Hspans & ->).
    { right. exists closer. simpl. rewrite Nat.sub_0_r.
      split; [done|by apply closing_not_blank]. }
    eexists. split; [done|].
    rewrite (forward_pass_prefix _ (S (end_line d))) by (done || lia).
    rewrite take_app_le by (rewrite length_take; lia).
    rewrite take_take. f_equal. lia.
  - apply remove_dispatchers_guarded.
  - intros H. rewrite <- guarded_spans_extended.
    + apply remove_dispatchers_guarded. eapply Forall_impl; [exact H|].
      intros d Hd. simpl in Hd. right. apply blank_run_start_blank. lia.
    + eapply Forall_impl; [exact H|]. intros d Hd. simpl in Hd. lia.
Qed.

Lemma remove_dispatchers_forward_pass_witness :
  let lines := split_lines doc_two_dispatchers in
  let d := Dispatcher (txt "parseA") (txt "parseACursor") 2 4 (txt "") (txt "Node") in
  let d' := Dispatcher (txt "parseB") (txt "parseBCursor") 7 9 (txt "x int") (txt "Node") in
  find_dispatchers doc_two_dispatchers = [] ++ d :: [d'] /\
  (sorted_desc (find_dispatchers doc_two_dispatchers) = [d'; d] /\
   exists lines',
     remove_loop [d'] lines = Done lines' /\ take 5 lines' = take 5 lines) /\
  extended_spans lines [d; d'] = [(2, 4); (6, 9)] /\
  remove_dispatchers doc_two_dispatchers (find_dispatchers doc_two_dispatchers) =
  Done (join_lines
          (forward_pass
             (extended_spans lines (find_dispatchers doc_two_dispatchers)) 0 lines)).
Proof.
  intros lines d d'.
  assert (find_dispatchers doc_two_dispatchers = [] ++ d :: [d']) as E
    by (vm_compute; reflexivity).
  split; [exact E|].
  split; [exact (proj1 (proj2 (remove_dispatchers_forward_pass doc_two_dispatchers))
                  [] d [d'] E)|].
  split; [vm_compute; reflexivity|].
  apply (proj2 (proj2 (proj2 (remove_dispatchers_forward_pass doc_two_dispatchers)))).
  rewrite E. repeat constructor; apply Nat.ltb_lt; vm_compute; reflexivity.
Defined.

(** C1.  The header of a dispatcher that follows a non-blank line is not
    deleted: on [doc_commented] the scanner records lines 1 to 3, and the
    eliminator deletes lines 2 and 3 only. *)
Theorem header_after_comment_survives :
  find_dispatchers doc_commented =
    [Dispatcher (txt "parseA") (txt "parseACursor") 1 3 (txt "") (txt "Node")] /\
  deletion_spans (split_lines doc_commented) (find_dispatchers doc_commented) =
    Done [(2, 3)] /\
  remove_dispatchers doc_commented (find_dispatchers doc_commented) =
    Done (join_lines [
      txt "// parseA forwards to the cursor implementation.";
      txt "func (p *Parser) parseA() Node {";
      txt ""
    ]).
Proof. split; [|split]; vm_compute; reflexivity. Qed.

(** *** Spans and records *)

Lemma covered_true spans m :
  covered spans m = true <-> exists span, span ∈ spans /\ in_span m span = true.
Proof.
  induction spans as [|span spans IH].
  - split; [done|]. intros (span & H & _). by apply elem_of_nil in H.
  - rewrite covered_cons, orb_true_iff, IH. split.
    + intros [H|(span' & H & H')]; [exists span; split; [left|done]|].
      exists span'. split; [by right|done].
    + intros (span' & H & H'). apply elem_of_cons in H as [->|H]; [by left|].
      right. by exists span'.
Qed.

Lemma deletion_spans_of_record lines ds spans d :
  deletion_spans lines ds = Done spans -> d ∈ ds ->
  exists a, deletion_start lines (start_line d) = Done a /\ (a, end_line d) ∈ spans.
Proof.
  revert spans. induction ds as [|d' ds IH]; intros spans E Hd.
  - by apply elem_of_nil in Hd.
  - simpl in E.
    destruct (deletion_start lines (start_line d')) as [a'| |] eqn:Ea; simpl in E;
      [|done..].
    destruct (deletion_spans lines ds) as [spans'| |]; simpl in E; [|done..].
    injection E as <-. apply elem_of_cons in Hd as [->|Hd].
    + exists a'. split; [done|left].
    + destruct (IH spans' eq_refl Hd) as (a & Ha & Hin). exists a. split; [done|by right].
Qed.

Lemma deletion_spans_record lines ds spans span :
  deletion_spans lines ds = Done spans -> span ∈ spans ->
  exists d, d ∈ ds /\ deletion_start lines (start_line d) = Done (fst span) /\
    snd span = end_line d.
Proof.
  revert spans. induction ds as [|d' ds IH]; intros spans E Hs; simpl in E.
  - injection E as <-. by apply elem_of_nil in Hs.
  - destruct (deletion_start lines (start_line d')) as [a'| |] eqn:Ea; simpl in E;
      [|done..].
    destruct (deletion_spans lines ds) as [spans'| |]; simpl in E; [|done..].
    injection E as <-. apply elem_of_cons in Hs as [->|Hs].
    + exists d'. split; [left|done].
    + destruct (IH spans' eq_refl Hs) as (d & Hd & H). exists d. split; [by right|done].
Qed.

Lemma StronglySorted_trichotomy {A} (R : relation A) l x y :
  StronglySorted R l -> x ∈ l -> y ∈ l -> x = y \/ R x y \/ R y x.
Proof.
  induction 1 as [|z l _ IH Hz]; intros Hx Hy; [by apply elem_of_nil in Hx|].
  rewrite Forall_forall in Hz.
  apply elem_of_cons in Hx as [->|Hx]; apply elem_of_cons in Hy as [->|Hy]; auto.
Qed.

(** Where the deletion for a recorded dispatcher starts. *)
Lemma deletion_start_lower lines d a i :
  dispatcher_at lines d -> deletion_start lines (start_line d) = Done a ->
  anchored lines i -> i <= start_line d -> i <= a.
Proof.
  intros Hd Ea Hanch Hi.
  record_bounds Hd.
  destruct (deletion_start_spec lines (start_line d)) as (f & Ef & Ea'); [lia|].
  rewrite Ea in Ea'. injection Ea' as ->.
  assert (i <= f) by (eapply extend_start_anchor; [exact Ef|lia|exact Hanch|lia]).
  destruct (0 <? f); lia.
Qed.

(** The lines that the forward pass keeps around a recorded dispatcher.  Let
    the run of blank lines before it begin at [f > 0]; when there is no blank
    line before it, [f] is the line of the header.  Line [f] is kept and the
    lines from [f + 1] to the end of the dispatcher are not. *)
Lemma blank_run_covered lines i ds spans d f :
  found_from lines i ds -> deletion_spans lines ds = Done spans -> d ∈ ds ->
  0 < f <= start_line d ->
  (forall m l, f <= m < start_line d -> lines !! m = Some l -> blank l) ->
  anchored lines f ->
  covered spans f = false /\
  forall m, f < m <= end_line d -> covered spans m = true.
Proof.
  intros Hfound Espans Hd Hf Hrun Hanch.
  pose proof (found_from_Forall _ _ _ Hfound) as Hall. rewrite Forall_forall in Hall.
  destruct (Hall d Hd) as [_ Hat].
  pose proof (dispatcher_at_lt _ _ Hat) as Hlt.
  pose proof (dispatcher_at_bound _ _ Hat) as Hbound.
  assert (deletion_start lines (start_line d) = Done (f + 1)) as Edel.
  { unfold deletion_start. rewrite (extend_start_run lines (start_line d) f); [|lia|done..].
    simpl. destruct (Nat.ltb_spec 0 f); [done|lia]. }
  split.
  - destruct (covered spans f) eqn:Hc; [exfalso|done].
    apply covered_true in Hc as ([a' e'] & Hspan & Hin).
    destruct (deletion_spans_record _ _ _ _ Espans Hspan) as (d' & Hd' & Ea' & He').
    simpl in Ea', He'. subst e'.
    unfold in_span in Hin. simpl in Hin. apply andb_true_iff in Hin as [H1 H2].
    apply Nat.leb_le in H1, H2.
    destruct (Hall d' Hd') as [_ Hat'].
    destruct (StronglySorted_trichotomy _ _ d d' (found_from_sorted _ _ _ Hfound) Hd Hd')
      as [<-|[Hdd'|Hd'd]].
    + rewrite Edel in Ea'. injection Ea' as <-. lia.
    + destruct (dispatcher_at_end _ _ Hat) as (closer & Hcl & Hclosing).
      assert (S (end_line d) <= a'); [|lia].
      eapply (deletion_start_lower lines d'); [done|done| |lia].
      right. exists closer. simpl. rewrite Nat.sub_0_r.
      split; [done|by apply closing_not_blank].
    + destruct (dispatcher_at_end _ _ Hat') as (closer & Hcl & Hclosing).
      apply (closing_not_blank _ Hclosing). apply (Hrun (end_line d')); [lia|done].
  - intros m Hm. apply covered_true.
    destruct (deletion_spans_of_record _ _ _ _ Espans Hd) as (a & Ea & Hin).
    rewrite Edel in Ea. injection Ea as <-.
    exists (f + 1, end_line d). split; [done|]. apply in_span_true. lia.
Qed.

Lemma forward_pass_collapse (lines : list text) spans f e lf :
  f <= e -> e < length lines -> lines !! f = Some lf ->
  covered spans f = false ->
  (forall m, f < m <= e -> covered spans m = true) ->
  forward_pass spans 0 lines =
  forward_pass spans 0 (take f lines) ++
  lf :: forward_pass spans (S e) (drop (S e) lines).
Proof.
  intros Hfe He Hlf Hkeep Hdrop.
  assert (lines = take f lines ++
                  (lf :: take (e - f) (drop (S f) lines)) ++ drop (S e) lines) as Hdec.
  { rewrite <- (take_drop_middle lines f lf Hlf) at 1. f_equal. simpl. f_equal.
    rewrite <- (take_drop (e - f) (drop (S f) lines)) at 1. f_equal.
    rewrite drop_drop. f_equal. lia. }
  etrans; [apply (f_equal (forward_pass _ 0) Hdec)|].
  rewrite forward_pass_app, length_take. f_equal.
  replace (0 + f `min` length lines) with f by lia.
  rewrite forward_pass_app. simpl. rewrite Hkeep. simpl. f_equal.
  rewrite length_take, length_drop.
  replace (f + S ((e - f) `min` (length lines - S f))) with (S e) by lia.
  rewrite forward_pass_all; [done|].
  intros m Hm. rewrite length_take, length_drop in Hm. apply Hdrop. lia.
Qed.

(** The header of a recorded dispatcher that follows a non-blank line is
    kept: [start] is incremented although no blank line was passed over, and
    only the lines after the header, up to the closing line, are deleted. *)
Lemma header_after_code_kept content d before :
  d ∈ find_dispatchers content ->
  0 < start_line d ->
  split_lines content !! (start_line d - 1) = Some before ->
  ~ blank before ->
  exists spans header g3,
    deletion_spans (split_lines content) (find_dispatchers content) = Done spans /\
    split_lines content !! start_line d = Some header /\
    func_match header = Some (name d, params d, g3) /\
    remove_dispatchers content (find_dispatchers content) =
    Done (join_lines
            (forward_pass spans 0 (take (start_line d) (split_lines content)) ++
             header ::
             forward_pass spans (S (end_line d))
               (drop (S (end_line d)) (split_lines content)))).
Proof.
  intros Hd Hpos Hbefore Hnb.
  pose proof (find_dispatchers_found content) as Hfound.
  destruct (find_dispatchers_at _ _ Hd) as [j Hj].
  pose proof (forwards_at_lt _ _ _ Hj) as Hlt.
  pose proof (dispatcher_at_bound _ _ (ex_intro _ j Hj)) as Hbound.
  destruct (fw_header _ _ _ Hj) as (header & g3 & Hh & Hm & _).
  destruct (remove_dispatchers_spans content) as (spans & Espans & ->).
  destruct (blank_run_covered _ _ _ _ d (start_line d) Hfound Espans Hd)
    as [Hkeep Hdrop]; [lia|intros m l Hm'; lia|right; by exists before|].
  exists spans, header, g3. repeat split; [done..|]. do 2 f_equal.
  apply forward_pass_collapse; [lia|done..].
Qed.

(** C2, as stated, fails: a run of three blank lines that begins the
    document is deleted whole, together with the dispatcher after it. *)
Lemma blank_run_at_top_vanishes :
  let d := Dispatcher (txt "parseA") (txt "parseACursor") 3 5 (txt "") (txt "Node") in
  d ∈ find_dispatchers doc_top_blanks /\
  take 3 (split_lines doc_top_blanks) = [[]; []; []] /\
  remove_dispatchers doc_top_blanks (find_dispatchers doc_top_blanks) =
    Done (txt "rest").
Proof. split; [vm_compute; left|]. split; vm_compute; reflexivity. Qed.

(** C2, amended.  Take a recorded dispatcher and the run of blank lines
    immediately before it, from line [f] on, where the run follows a non-blank
    line.  Of the lines from [f] to the end of the dispatcher, the output keeps
    line [f], a blank line, and nothing else: it is what is left of the lines
    before [f], then that one blank line, then what is left of the lines after
    the dispatcher. *)
Theorem blank_run_collapses content d f before :
  d ∈ find_dispatchers content ->
  0 < f < start_line d ->
  (forall m l, f <= m < start_line d -> split_lines content !! m = Some l -> blank l) ->
  split_lines content !! (f - 1) = Some before ->
  ~ blank before ->
  exists spans blank_line,
    deletion_spans (split_lines content) (find_dispatchers content) = Done spans /\
    split_lines content !! f = Some blank_line /\
    blank blank_line /\
    remove_dispatchers content (find_dispatchers content) =
    Done (join_lines
            (forward_pass spans 0 (take f (split_lines content)) ++
             blank_line ::
             forward_pass spans (S (end_line d))
               (drop (S (end_line d)) (split_lines content)))).
Proof.
  intros Hd Hf Hrun Hbefore Hnb.
  pose proof (find_dispatchers_found content) as Hfound.
  pose proof (find_dispatchers_at _ _ Hd) as Hat.
  pose proof (dispatcher_at_lt _ _ Hat) as Hlt.
  pose proof (dispatcher_at_bound _ _ Hat) as Hbound.
  destruct (remove_dispatchers_spans content) as (spans & Espans & ->).
  destruct (lookup_lt_is_Some_2 (split_lines content) f) as [blank_line Hline]; [lia|].
  destruct (blank_run_covered _ _ _ _ d f Hfound Espans Hd) as [Hkeep Hdrop];
    [lia|done|right; by exists before|].
  exists spans, blank_line. repeat split; [done|done| |].
  - apply (Hrun f); [lia|done].
  - do 2 f_equal. apply forward_pass_collapse; [lia|done..].
Qed.

Lemma blank_run_collapses_witness :
  remove_dispatchers doc_parse_expr (find_dispatchers doc_parse_expr) =
  Done (join_lines [
    txt "package parser";
    txt "";
    txt "";
    txt "func (p *Parser) parseExprCursor(x int) Node {";
    tab :: txt "return p.expr(x)";
    txt "}";
    txt ""
  ]).
Proof.
  destruct (blank_run_collapses doc_parse_expr
              (Dispatcher (txt "parseExpr") (txt "parseExprCursor") 4 6
                 (txt "x int") (txt "Node"))
              1 (txt "package parser"))
    as (spans & blank_line & Espans & Hline & _ & E).
  - vm_compute. left.
  - simpl. lia.
  - intros m l Hm Hl.
    assert (m = 1 \/ m = 2 \/ m = 3) as [-> | [-> | ->]] by (simpl in Hm; lia);
      vm_compute in Hl; injection Hl as <-; reflexivity.
  - reflexivity.
  - vm_compute. discriminate.
  - vm_compute in Espans. injection Espans as <-.
    vm_compute in Hline. injection Hline as <-.
    rewrite E. vm_compute. reflexivity.
Defined.

(** ** The rewriter *)

Lemma is_prefix_true p s : is_prefix p s = true <-> exists r, s = p ++ r.
Proof.
  unfold is_prefix. destruct (strip_prefix p s) as [r|] eqn:E.
  - apply strip_prefix_Some in E. split; [by exists r|done].
  - split; [done|]. intros [r Hr]. apply strip_prefix_Some in Hr. congruence.
Qed.

Lemma occurs_cons pat c s : occurs pat s -> occurs pat (c :: s).
Proof. intros (pre & post & ->). by exists (c :: pre), post. Qed.

Lemma occurs_prefix pat r : occurs pat (pat ++ r).
Proof. by exists [], r. Qed.

Lemma occurs_weaken pat pat1 pat2 s : occurs (pat1 ++ pat ++ pat2) s -> occurs pat s.
Proof.
  intros (pre & post & ->). exists (pre ++ pat1), (pat2 ++ post).
  by rewrite <- !app_assoc.
Qed.

(** Without an occurrence of the pattern nothing is replaced. *)
Lemma re_sub_from_no_occurrence pat repl prev_word s :
  ~ occurs pat s -> re_sub_from pat repl prev_word 0 s = s.
Proof.
  revert prev_word. induction s as [|c s IH]; intros prev_word Hno; [done|]. simpl.
  destruct (is_prefix pat (c :: s)) eqn:Hp.
  - exfalso. apply is_prefix_true in Hp as [r Hr]. apply Hno. rewrite Hr.
    apply occurs_prefix.
  - rewrite andb_false_r. f_equal. apply IH. intros H. by apply Hno, occurs_cons.
Qed.

Lemma rename_line_unchanged order line :
  (forall c, c ∈ order -> ~ occurs (decl_pattern c) line) ->
  rename_line order line = line.
Proof.
  unfold rename_line. induction order as [|c order IH]; intros H; [done|]. simpl.
  unfold rename_decl at 2. rewrite re_sub_from_no_occurrence.
  - apply IH. intros c' Hc'. apply H. by right.
  - apply H. left.
Qed.

Lemma re_sub_from_skip pat repl prev_word n c s :
  re_sub_from pat repl prev_word (S n) (c :: s) = re_sub_from pat repl (is_word c) n s.
Proof. reflexivity. Qed.

Lemma re_sub_from_search pat repl prev_word c s :
  re_sub_from pat repl prev_word 0 (c :: s) =
  if negb prev_word && is_prefix pat (c :: s)
  then repl ++ re_sub_from pat repl (is_word c) (length pat - 1) s
  else c :: re_sub_from pat repl (is_word c) 0 s.
Proof. reflexivity. Qed.

(** What [re.sub] returns is its argument with occurrences of the pattern
    replaced. *)
Lemma re_sub_from_renamed names n prev_word skip s :
  n ∈ names -> skip <= length s ->
  renamed names (drop skip s)
    (re_sub_from (decl_pattern n) (decl_pattern (base_name n)) prev_word skip s).
Proof.
  intros Hn. revert prev_word skip.
  induction s as [|c s IH]; intros prev_word skip Hskip.
  - rewrite drop_nil. constructor.
  - destruct skip as [|skip].
    + rewrite re_sub_from_search, drop_0.
      destruct (negb prev_word && is_prefix (decl_pattern n) (c :: s)) eqn:Hp.
      * apply andb_true_iff in Hp as [_ Hp]. apply is_prefix_true in Hp as [r Hr].
        rewrite Hr. apply renamed_decl; [done|].
        assert (s = drop 1 (decl_pattern n) ++ r) as Hs.
        { change s with (drop 1 (c :: s)). rewrite Hr. reflexivity. }
        assert (length (decl_pattern n) - 1 = length (drop 1 (decl_pattern n))) as Hl.
        { by rewrite length_drop. }
        assert (length (decl_pattern n) - 1 <= length s) as Hlen.
        { rewrite Hs, length_app, length_drop. lia. }
        assert (drop (length (decl_pattern n) - 1) s = r) as Hr'.
        { rewrite Hl, Hs. apply drop_app_length. }
        rewrite <- Hr' at 1. by apply IH.
      * apply renamed_keep. apply (IH _ 0). lia.
    + rewrite re_sub_from_skip. apply IH. simpl in Hskip. lia.
Qed.

Lemma renamed_refl names s : renamed names s s.
Proof. induction s; by constructor. Qed.

Lemma rename_line_renamed names order line :
  order ⊆ names -> rtc (renamed names) line (rename_line order line).
Proof.
  unfold rename_line. revert line.
  induction order as [|c order IH]; intros line Hsub; [done|]. simpl.
  eapply rtc_l; [|apply IH; set_solver].
  apply (re_sub_from_renamed names c false 0 line); [set_solver|lia].
Qed.

Lemma occursb_spec pat s : occursb pat s = true <-> occurs pat s.
Proof.
  induction s as [|c s IH].
  - simpl. rewrite orb_false_r, is_prefix_true. split.
    + intros [r Hr]. by exists [], r.
    + intros (pre & post & H). symmetry in H.
      apply app_eq_nil in H as [-> H]. apply app_eq_nil in H as [-> ->]. by exists [].
  - simpl. rewrite orb_true_iff, IH, is_prefix_true. split.
    + intros [[r Hr]|H]; [rewrite Hr; apply occurs_prefix|by apply occurs_cons].
    + intros ([|c' pre] & post & H); [left; by exists post|].
      right. injection H as _ ->. by exists pre, post.
Qed.

Lemma not_occurs pat s : occursb pat s = false -> ~ occurs pat s.
Proof. intros H Ho. apply occursb_spec in Ho. congruence. Qed.

(** *** Lines stay lines *)

Lemma split_lines_one_line s : Forall one_line (split_lines s).
Proof.
  induction s as [|c s IH]; simpl.
  - repeat constructor. apply not_elem_of_nil.
  - destruct (Ascii.eqb_spec c newline) as [->|Hc].
    + constructor; [apply not_elem_of_nil|done].
    + destruct (split_lines s) as [|l ls].
      * apply Forall_singleton. unfold one_line.
        rewrite list_elem_of_singleton. congruence.
      * apply Forall_cons in IH as [Hl Hls].
        constructor; [|done]. unfold one_line in *.
        rewrite not_elem_of_cons. split; [congruence|done].
Qed.

Lemma split_lines_app_newline l s :
  one_line l -> split_lines (l ++ newline :: s) = l :: split_lines s.
Proof.
  unfold one_line. induction l as [|c l IH]; intros Hl; simpl.
  - done.
  - destruct (Ascii.eqb_spec c newline) as [->|Hc]; [set_solver|].
    rewrite IH; [done|set_solver].
Qed.

Lemma split_lines_single l : one_line l -> split_lines l = [l].
Proof.
  unfold one_line. induction l as [|c l IH]; intros Hl; simpl; [done|].
  destruct (Ascii.eqb_spec c newline) as [->|Hc]; [set_solver|].
  rewrite IH; [done|set_solver].
Qed.

Lemma split_join ls :
  ls <> [] -> Forall one_line ls -> split_lines (join_lines ls) = ls.
Proof.
  induction ls as [|l ls IH]; intros Hne Hall; [done|].
  inversion Hall as [|? ? Hl Hls]; subst. destruct ls as [|l' ls].
  - by apply split_lines_single.
  - rewrite join_lines_cons, split_lines_app_newline by done.
    f_equal. by apply IH.
Qed.

Lemma re_sub_from_one_line pat repl prev_word skip s :
  (one_line pat -> one_line repl) -> one_line s ->
  one_line (re_sub_from pat repl prev_word skip s).
Proof.
  intros Hrepl. unfold one_line in *. revert prev_word skip.
  induction s as [|c s IH]; intros prev_word skip Hs; [done|].
  destruct skip as [|skip].
  - rewrite re_sub_from_search.
    destruct (negb prev_word && is_prefix pat (c :: s)) eqn:Hp.
    + apply andb_true_iff in Hp as [_ Hp]. apply is_prefix_true in Hp as [r Hr].
      assert (newline ∉ s) as Hs' by set_solver.
      rewrite Hr in Hs. rewrite not_elem_of_app in Hs |- *. destruct Hs as [Hpat _].
      split; [by apply Hrepl|by apply IH].
    + rewrite not_elem_of_cons in Hs |- *. destruct Hs. split; [done|by apply IH].
  - rewrite re_sub_from_skip. apply IH. set_solver.
Qed.

Lemma one_line_txt_decl : one_line (txt "func (p *Parser) ").
Proof. unfold one_line. rewrite list_elem_of_In. vm_compute. intuition discriminate. Qed.

Lemma one_line_txt_paren : one_line (txt "(").
Proof. unfold one_line. rewrite list_elem_of_In. vm_compute. intuition discriminate. Qed.

Lemma decl_pattern_one_line c :
  one_line (decl_pattern c) -> one_line (decl_pattern (base_name c)).
Proof.
  unfold decl_pattern, one_line. rewrite !not_elem_of_app.
  intros (H1 & H2 & H3). repeat split; [done| |done].
  intros H. apply H2. unfold base_name in H. by eapply subseteq_take.
Qed.

Lemma rename_line_one_line order line :
  one_line line -> one_line (rename_line order line).
Proof.
  unfold rename_line. revert line.
  induction order as [|c order IH]; intros line Hl; [done|]. simpl.
  apply IH. apply re_sub_from_one_line; [apply decl_pattern_one_line|done].
Qed.

(** The rewriter works line by line. *)
Lemma rename_cursor_functions_lines order content :
  split_lines (rename_cursor_functions order content) =
  map (rename_line order) (split_lines content).
Proof.
  unfold rename_cursor_functions. apply split_join.
  - destruct (split_lines_cons content) as (l & ls & ->). done.
  - apply Forall_fmap. eapply Forall_impl; [apply split_lines_one_line|].
    intros l Hl. by apply rename_line_one_line.
Qed.

Lemma set_iteration_map ds :
  NoDup (map cursor_name ds) -> set_iteration ds (map cursor_name ds).
Proof. intros H. by split. Qed.

(** C5, as stated, fails: a comment that quotes the declaration of the
    delegate is rewritten, although the line is a comment and does not match
    the header pattern of the scanner. *)
Lemma quoted_declaration_rewritten :
  let ds := find_dispatchers doc_quoted_declaration in
  let line := txt "// was: func (p *Parser) parseACursor() Node" in
  map cursor_name ds = [txt "parseACursor"] /\
  split_lines doc_quoted_declaration !! 4 = Some line /\
  func_match line = None /\
  split_lines (rename_cursor_functions [txt "parseACursor"] doc_quoted_declaration) !! 4 =
    Some (txt "// was: func (p *Parser) parseA() Node").
Proof. split; [|split; [|split]]; vm_compute; reflexivity. Qed.

Lemma re_sub_from_skip_app pat repl prev_word u x rest :
  re_sub_from pat repl prev_word (length (u ++ [x])) ((u ++ [x]) ++ rest) =
  re_sub_from pat repl (is_word x) 0 rest.
Proof.
  revert prev_word. induction u as [|c u IH]; intros prev_word.
  - simpl. by destruct rest.
  - simpl. apply IH.
Qed.

Lemma re_sub_from_match pat repl c0 u x rest :
  pat = c0 :: u ++ [x] -> is_word x = false ->
  re_sub_from pat repl false 0 (pat ++ rest) =
  repl ++ re_sub_from pat repl false 0 rest.
Proof.
  intros Hpat Hx.
  assert (pat ++ rest = c0 :: (u ++ [x]) ++ rest) as E by (by rewrite Hpat).
  assert (is_prefix pat (c0 :: (u ++ [x]) ++ rest) = true) as Hp.
  { rewrite <- E. apply is_prefix_true. by exists rest. }
  rewrite E, re_sub_from_search, Hp. simpl negb. simpl andb. f_equal.
  replace (length pat - 1) with (length (u ++ [x]))
    by (rewrite Hpat; simpl; lia).
  by rewrite re_sub_from_skip_app, Hx.
Qed.

(** *** Which occurrences are replaced *)

Lemma at_boundary_cons prev_word a pre :
  at_boundary prev_word (a :: pre) <-> at_boundary (is_word a) pre.
Proof. unfold at_boundary. rewrite last_cons. by destruct (last pre). Qed.

(** [re.sub] copies the text before the leftmost occurrence of the pattern at
    a boundary, replaces the occurrence, and goes on after it. *)
Lemma re_sub_from_first pat repl c0 u x pre :
  pat = c0 :: u ++ [x] -> is_word x = false ->
  forall prev_word post,
    at_boundary prev_word pre ->
    (forall pre' post',
       pre ++ pat ++ post = pre' ++ pat ++ post' ->
       at_boundary prev_word pre' -> length pre <= length pre') ->
    re_sub_from pat repl prev_word 0 (pre ++ pat ++ post) =
    pre ++ repl ++ re_sub_from pat repl false 0 post.
Proof.
  intros Hpat Hx. induction pre as [|a pre IH]; intros prev_word post Hb Hmin.
  - unfold at_boundary in Hb. simpl in Hb. subst prev_word.
    rewrite !app_nil_l. by apply (re_sub_from_match _ _ c0 u x).
  - change ((a :: pre) ++ pat ++ post) with (a :: (pre ++ pat ++ post)).
    rewrite re_sub_from_search.
    destruct (negb prev_word && is_prefix pat (a :: pre ++ pat ++ post)) eqn:E.
    { apply andb_prop in E as [Hw Hp]. apply is_prefix_true in Hp as [r Hr].
      apply negb_true_iff in Hw.
      specialize (Hmin [] r Hr Hw). simpl in Hmin. lia. }
    change ((a :: pre) ++ repl ++ re_sub_from pat repl false 0 post)
      with (a :: (pre ++ repl ++ re_sub_from pat repl false 0 post)).
    f_equal. apply IH; [exact (proj1 (at_boundary_cons _ _ _) Hb)|].
    intros pre' post' E' Hb'.
    specialize (Hmin (a :: pre') post'). simpl in Hmin.
    rewrite E' in Hmin.
    specialize (Hmin eq_refl (proj2 (at_boundary_cons prev_word _ _) Hb')). lia.
Qed.

(** [re.sub] returns its argument when the pattern occurs at no boundary. *)
Lemma re_sub_from_none pat repl s :
  forall prev_word,
    (forall pre post, s = pre ++ pat ++ post -> ~ at_boundary prev_word pre) ->
    re_sub_from pat repl prev_word 0 s = s.
Proof.
  induction s as [|a s IH]; intros prev_word Hno; [done|].
  rewrite re_sub_from_search.
  destruct (negb prev_word && is_prefix pat (a :: s)) eqn:E.
  { apply andb_prop in E as [Hw Hp]. apply is_prefix_true in Hp as [r Hr].
    apply negb_true_iff in Hw. by destruct (Hno [] r Hr). }
  f_equal. apply IH. intros pre post E' Hb.
  apply (Hno (a :: pre) post); [by rewrite E'|].
  exact (proj2 (at_boundary_cons prev_word _ _) Hb).
Qed.

Lemma decl_pattern_shape c :
  decl_pattern c = "f"%char :: (txt "unc (p *Parser) " ++ c) ++ ["("%char].
Proof. unfold decl_pattern. by rewrite <- app_assoc. Qed.

Lemma rename_decl_first c line pre post :
  first_occurrence (decl_pattern c) line pre post ->
  rename_decl c line =
  pre ++ decl_pattern (base_name c) ++ rename_decl c post.
Proof.
  intros [[-> Hb] Hmin]. unfold rename_decl.
  apply (re_sub_from_first _ _ _ _ _ _ (decl_pattern_shape c) eq_refl); [done|].
  intros pre' post' E Hb'. by apply (Hmin pre' post').
Qed.

Lemma rename_decl_none c line :
  (forall pre post, ~ occurs_after (decl_pattern c) line pre post) ->
  rename_decl c line = line.
Proof.
  intros Hno. apply re_sub_from_none. intros pre post E Hb.
  by apply (Hno pre post).
Qed.

(** C5, amended.  The rewriter works line by line, and on each line makes one
    substitution after the other, one for each delegate name in the order of
    iteration.  The substitution for a name leaves a line as it is when the
    text [func (p *Parser) <delegate>(] does not occur on it at the start of
    the line or after a character that is no word character; otherwise it
    copies the line up to the leftmost such occurrence, writes
    [func (p *Parser) <base name>(] in its place, and treats the rest of the
    line in the same way.  So each line of the output is the line of the input
    with occurrences of that text replaced, wherever they stand on the line,
    and every other character copied, and a line with no occurrence at all,
    whatever else it mentions, is left as it is. *)
Theorem rename_frame dispatchers order content :
  set_iteration dispatchers order ->
  Forall word_name (map cursor_name dispatchers) ->
  split_lines (rename_cursor_functions order content) =
    map (rename_line order) (split_lines content) /\
  forall line,
    rtc (renamed (map cursor_name dispatchers)) line (rename_line order line) /\
    ((forall d, d ∈ dispatchers -> ~ occurs (decl_pattern (cursor_name d)) line) ->
     rename_line order line = line) /\
    rename_line order line =
      foldl (fun new_line c => rename_decl c new_line) line order /\
    forall c,
      c ∈ map cursor_name dispatchers ->
      ((forall pre post, ~ occurs_after (decl_pattern c) line pre post) ->
       rename_decl c line = line) /\
      (forall pre post,
         first_occurrence (decl_pattern c) line pre post ->
         rename_decl c line =
         pre ++ decl_pattern (base_name c) ++ rename_decl c post).
Proof.
  intros [_ Horder] _. split; [apply rename_cursor_functions_lines|].
  intros line. split; [|split; [|split]].
  - apply rename_line_renamed. intros c Hc. by apply Horder.
  - intros Hno. apply rename_line_unchanged. intros c Hc.
    apply Horder, list_elem_of_fmap in Hc as (d & -> & Hd). by apply Hno.
  - reflexivity.
  - intros c _. split; [apply rename_decl_none|apply rename_decl_first].
Qed.

Lemma rename_frame_witness :
  let order := map cursor_name (find_dispatchers doc_quoted_declaration) in
  let line := tab :: txt "return p.parseACursor2() // not parseACursor(" in
  let quoted := txt "// func (p *Parser) parseACursor(), not xfunc (p *Parser) parseACursor()" in
  rename_line order line = line /\
  rename_decl (txt "parseACursor") quoted =
    txt "// " ++ decl_pattern (txt "parseA") ++
    rename_decl (txt "parseACursor") (txt "), not xfunc (p *Parser) parseACursor()") /\
  rename_decl (txt "parseACursor") (txt "), not xfunc (p *Parser) parseACursor()") =
    txt "), not xfunc (p *Parser) parseACursor()".
Proof.
  intros order line quoted.
  assert (set_iteration (find_dispatchers doc_quoted_declaration) order) as Hset
    by (apply set_iteration_map; vm_compute; apply NoDup_singleton).
  assert (Forall word_name (map cursor_name (find_dispatchers doc_quoted_declaration)))
    as Hword by (vm_compute; repeat constructor).
  assert (txt "parseACursor" ∈ map cursor_name (find_dispatchers doc_quoted_declaration))
    as Hin by (vm_compute; left).
  pose proof (proj2 (rename_frame (find_dispatchers doc_quoted_declaration) order
                       doc_quoted_declaration Hset Hword)) as H.
  split; [|split].
  - apply (proj1 (proj2 (H line))).
    intros d Hd. vm_compute in Hd. apply list_elem_of_singleton in Hd as ->.
    apply not_occurs. vm_compute. reflexivity.
  - apply (proj2 (proj2 (proj2 (proj2 (H quoted))) _ Hin)).
    split; [split; [reflexivity|reflexivity]|].
    intros pre' post' [E _].
    do 3 (destruct pre' as [|? pre']; [exfalso; vm_compute in E; discriminate E|]).
    simpl. lia.
  - apply (proj1 (proj2 (proj2 (proj2 (H _))) _ Hin)).
    intros pre post [E Hb].
    do 8 (destruct pre as [|? pre]; [exfalso; vm_compute in E; discriminate E|]).
    destruct pre as [|? pre].
    { vm_compute in E. injection E as <- <- <- <- <- <- <- <- _.
      vm_compute in Hb. discriminate Hb. }
    destruct pre as [|? pre]; [exfalso; vm_compute in E; discriminate E|].
    apply (f_equal length) in E. rewrite !length_app in E. simpl in E. lia.
Defined.

(** ** Receiver and prefix *)

Lemma recorded_name_shape lines d :
  dispatcher_at lines d ->
  exists w rest,
    lines !! start_line d =
      Some (txt "func (p *Parser) parse" ++ w ++ "("%char :: rest) /\
    w <> [] /\ Forall (fun c => is_word c = true) w /\
    name d = txt "parse" ++ w /\
    cursor_name d = txt "parse" ++ w ++ txt "Cursor".
Proof.
  intros [j Hj]. destruct (fw_header _ _ _ Hj) as (header & g3 & Hh & Hm & _).
  apply func_match_shape in Hm as (w & rest & -> & Hw & Hword & Hname).
  exists w, rest. repeat split; [done..|].
  by rewrite (fw_suffix _ _ _ Hj), Hname, <- app_assoc.
Qed.

Lemma decl_pattern_parse w line :
  occurs (decl_pattern (txt "parse" ++ w ++ txt "Cursor")) line ->
  occurs (txt "func (p *Parser) parse") line.
Proof.
  intros (pre & post & ->). exists pre, (w ++ txt "Cursor" ++ txt "(" ++ post).
  unfold decl_pattern.
  change (txt "func (p *Parser) parse") with (txt "func (p *Parser) " ++ txt "parse").
  by rewrite <- !app_assoc.
Qed.

(** A deleted line is a blank line or a line of a recorded span. *)
Lemma deleted_line lines ds spans m l :
  Forall (dispatcher_at lines) ds -> deletion_spans lines ds = Done spans ->
  lines !! m = Some l -> covered spans m = true ->
  blank l \/ exists d, d ∈ ds /\ start_line d <= m <= end_line d.
Proof.
  intros Hall Espans Hl Hc. rewrite Forall_forall in Hall.
  apply covered_true in Hc as ([a e] & Hspan & Hin).
  destruct (deletion_spans_record _ _ _ _ Espans Hspan) as (d & Hd & Ea & He).
  simpl in Ea, He. subst e.
  unfold in_span in Hin. simpl in Hin. apply andb_true_iff in Hin as [H1 H2].
  apply Nat.leb_le in H1, H2.
  destruct (Nat.le_gt_cases (start_line d) m) as [Hm|Hm]; [right; by exists d|].
  left. record_bounds (Hall d Hd).
  destruct (extend_start_spec lines (start_line d)) as (f & Ef & _ & Hbl & _); [lia|].
  unfold deletion_start in Ea. rewrite Ef in Ea. simpl in Ea. injection Ea as <-.
  apply (Hbl m); [|done]. destruct (0 <? f); lia.
Qed.

(** C10, as stated, fails: a function of the dispatcher shape with another
    receiver and name is deleted when it stands inside the span recorded for a
    [(p *Parser)] dispatcher. *)
Lemma enclosed_function_deleted :
  find_dispatchers doc_enclosed =
    [Dispatcher (txt "parseA") (txt "parseACursor") 0 4 (txt "") (txt "Node")] /\
  take 3 (drop 2 (split_lines doc_enclosed)) =
    [txt "func (l *Lexer) lexB() Token {"; tab :: txt "return l.lexBCursor()"; txt "}"] /\
  remove_dispatchers doc_enclosed (find_dispatchers doc_enclosed) =
    Done (txt "func (l *Lexer) lexBCursor() Token {").
Proof. split; [|split]; vm_compute; reflexivity. Qed.

(** C10, amended.  Every record of the scanner starts at a line that begins
    with [func (p *Parser) parse], a non-empty run of word characters and an
    opening parenthesis, and its name is [parse] followed by that run.  With
    the records of the scanner, the rewriter leaves every line in which
    [func (p *Parser) parse] does not occur as it is.  A non-blank line is
    deleted only if it lies in the span of a record. *)
Theorem only_parser_parse_functions content :
  (forall d, d ∈ find_dispatchers content ->
     exists w rest,
       split_lines content !! start_line d =
         Some (txt "func (p *Parser) parse" ++ w ++ "("%char :: rest) /\
       w <> [] /\ Forall (fun c => is_word c = true) w /\
       name d = txt "parse" ++ w /\
       cursor_name d = txt "parse" ++ w ++ txt "Cursor") /\
  (forall order line,
     set_iteration (find_dispatchers content) order ->
     ~ occurs (txt "func (p *Parser) parse") line ->
     rename_line order line = line) /\
  exists spans,
    deletion_spans (split_lines content) (find_dispatchers content) = Done spans /\
    remove_dispatchers content (find_dispatchers content) =
      Done (join_lines (forward_pass spans 0 (split_lines content))) /\
    forall m l,
      split_lines content !! m = Some l -> covered spans m = true ->
      blank l \/
      exists d, d ∈ find_dispatchers content /\ start_line d <= m <= end_line d.
Proof.
  pose proof (find_dispatchers_found content) as Hfound.
  split; [|split].
  - intros d Hd. by apply recorded_name_shape, find_dispatchers_at.
  - intros order line [_ Horder] Hno. apply rename_line_unchanged.
    intros c Hc Hocc. apply Horder, list_elem_of_fmap in Hc as (d & -> & Hd).
    destruct (recorded_name_shape _ _ (find_dispatchers_at _ _ Hd))
      as (w & _ & _ & _ & _ & _ & Hcursor).
    rewrite Hcursor in Hocc. by apply Hno, (decl_pattern_parse w).
  - destruct (remove_dispatchers_spans content) as (spans & Espans & Eout).
    exists spans. split; [done|]. split; [done|].
    intros m l. apply deleted_line; [|done].
    eapply Forall_impl; [exact (found_from_Forall _ _ _ Hfound)|]. by intros d [_ Hd].
Qed.

Lemma only_parser_parse_functions_witness :
  let order := map cursor_name (find_dispatchers doc_two_dispatchers) in
  let line := txt "func (l *Lexer) parseACursor() Token {" in
  rename_line order line = line.
Proof.
  intros order line.
  apply (proj1 (proj2 (only_parser_parse_functions doc_two_dispatchers))).
  - apply set_iteration_map. vm_compute.
    apply NoDup_cons. split; [|apply NoDup_singleton].
    rewrite list_elem_of_singleton. discriminate.
  - apply not_occurs. vm_compute. reflexivity.
Defined.

(** ** The whole transform *)

(** C4, as stated, fails: the delegate of [doc_self_call] calls itself in its
    first statement; once it has taken the name of the dispatcher, the scanner
    records it, and a second run deletes it. *)
Lemma second_run_changes_text :
  let order := [txt "parseACursor"] in
  set_iteration (find_dispatchers doc_self_call) order /\
  process_file order doc_self_call = Done (doc_self_call_processed, 1) /\
  find_dispatchers doc_self_call_processed =
    [Dispatcher (txt "parseA") (txt "parseACursor") 1 3 (txt "") (txt "Node")] /\
  set_iteration (find_dispatchers doc_self_call_processed) order /\
  process_file order doc_self_call_processed = Done ([], 1).
Proof.
  assert (forall ds, map cursor_name ds = [txt "parseACursor"] ->
            set_iteration ds [txt "parseACursor"]) as Hiter.
  { intros ds E. rewrite <- E. apply set_iteration_map. rewrite E. apply NoDup_singleton. }
  split; [|split; [|split; [|split]]];
    try (apply Hiter); vm_compute; reflexivity.
Qed.

Lemma remove_dispatchers_nil content : remove_dispatchers content [] = Done content.
Proof. unfold remove_dispatchers. simpl. by rewrite join_split. Qed.

Lemma rename_cursor_functions_nil content : rename_cursor_functions [] content = content.
Proof.
  unfold rename_cursor_functions, rename_line. simpl.
  by rewrite map_id, join_split.
Qed.

(** *** Lines of the forwarding shape *)

(** A prefix without the character [x] of a list whose first [x] comes after
    [pre] is a prefix of [pre]. *)
Lemma prefix_before {A} (x : A) (P r pre post : list A) :
  x ∉ P -> P ++ r = pre ++ x :: post -> exists r0, pre = P ++ r0.
Proof.
  revert pre. induction P as [|a P IH]; intros pre Hx E; [by exists pre|].
  apply not_elem_of_cons in Hx as [Hxa Hx].
  destruct pre as [|b pre]; simpl in E.
  - injection E as -> _. done.
  - injection E as -> E. destruct (IH pre Hx E) as [r0 ->]. by exists r0.
Qed.

(** Renaming declarations leaves every prefix without [*] of a line as it
    is: the text replaced and the text put in its place both begin with
    [func (p *Parser) ]. *)
Lemma renamed_prefix names s t P :
  renamed names s t -> "*"%char ∉ P ->
  (exists r, t = P ++ r) -> exists r', s = P ++ r'.
Proof.
  intros H HP. revert P HP. induction H as [|c s t _ IH|n s t Hn _ _]; intros P HP [r E].
  - symmetry in E. apply app_eq_nil in E as [-> _]. by exists [].
  - destruct P as [|a P]; [by eexists|].
    apply not_elem_of_cons in HP as [_ HP]. injection E as <- E.
    destruct (IH P HP) as [r' ->]; [by exists r|]. by exists r'.
  - unfold decl_pattern in *.
    change (txt "func (p *Parser) ") with (txt "func (p " ++ "*"%char :: txt "Parser) ") in *.
    rewrite <- !app_assoc, <- !app_comm_cons in E.
    symmetry in E. destruct (prefix_before _ _ _ _ _ HP E) as [r0 Hr0].
    rewrite Hr0. eexists. by rewrite <- !app_assoc.
Qed.

Lemma rtc_renamed_prefix names s t P :
  rtc (renamed names) s t -> "*"%char ∉ P ->
  (exists r, t = P ++ r) -> exists r', s = P ++ r'.
Proof.
  induction 1 as [|s u t Hsu _ IH]; intros HP Ht; [done|].
  eapply renamed_prefix; [exact Hsu|done|by apply IH].
Qed.

Lemma not_elem_of_Forall_false (f : ascii -> bool) x (l : text) :
  f x = false -> Forall (fun a => f a = true) l -> x ∉ l.
Proof.
  intros Hx Hl Hin. rewrite Forall_forall in Hl. apply Hl in Hin. congruence.
Qed.

(** Renaming declarations does not make a line a forward. *)
Lemma return_match_renamed names s t c :
  rtc (renamed names) s t -> return_match t = Some c -> return_match s = Some c.
Proof.
  intros Hst Ht. apply return_match_iff in Ht as (ws & x & rest & -> & Hws & Hc & Hx).
  destruct (rtc_renamed_prefix names s _ (ws ++ txt "return p." ++ c ++ txt "(") Hst)
    as [r' ->].
  - rewrite !not_elem_of_app. repeat split.
    + by apply (not_elem_of_Forall_false is_space).
    + rewrite list_elem_of_In. vm_compute. intuition discriminate.
    + by apply (not_elem_of_Forall_false is_word).
    + rewrite list_elem_of_In. vm_compute. intuition discriminate.
  - exists rest. by rewrite <- !app_assoc.
  - apply return_match_iff. exists ws, x, r'. by rewrite <- !app_assoc.
Qed.

Lemma forward_pass_elem spans i ls l :
  l ∈ forward_pass spans i ls ->
  exists m, i <= m /\ ls !! (m - i) = Some l /\ covered spans m = false.
Proof.
  revert i. induction ls as [|l' ls IH]; intros i Hl; simpl in Hl.
  - by apply elem_of_nil in Hl.
  - assert (forall m, S i <= m -> (l' :: ls) !! (m - i) = ls !! (m - S i)) as Hshift.
    { intros m Hm. replace (m - i) with (S (m - S i)) by lia. done. }
    destruct (covered spans i) eqn:Hc.
    + destruct (IH _ Hl) as (m & Hm & Hlook & Hcov).
      exists m. rewrite Hshift by lia. repeat split; [lia|done..].
    + apply elem_of_cons in Hl as [->|Hl].
      * exists i. rewrite Nat.sub_diag. repeat split; [lia|done..].
      * destruct (IH _ Hl) as (m & Hm & Hlook & Hcov).
        exists m. rewrite Hshift by lia. repeat split; [lia|done..].
Qed.

Lemma split_join_elem ls l :
  Forall one_line ls -> l ∈ split_lines (join_lines ls) -> l = [] \/ l ∈ ls.
Proof.
  intros Hall Hl. destruct ls as [|l0 ls].
  - simpl in Hl. apply list_elem_of_singleton in Hl. by left.
  - rewrite split_join in Hl by done. by right.
Qed.

Lemma forward_pass_one_line spans i ls :
  Forall one_line ls -> Forall one_line (forward_pass spans i ls).
Proof.
  intros H. revert i. induction H as [|l ls Hl _ IH]; intros i; simpl; [constructor|].
  destruct (covered spans i); [apply IH|constructor; [done|apply IH]].
Qed.

(** A document none of whose lines is a forward has no dispatcher. *)
Lemma no_forward_no_dispatcher content :
  (forall l, l ∈ split_lines content -> return_match l = None) ->
  find_dispatchers content = [].
Proof.
  intros Hno. destruct (find_dispatchers content) as [|d ds] eqn:E; [done|].
  exfalso. assert (d ∈ find_dispatchers content) as Hd by (rewrite E; left).
  destruct (find_dispatchers_at _ _ Hd) as [j Hj].
  destruct (fw_body _ _ _ Hj) as (body & Hb & _ & Hr).
  rewrite (Hno body) in Hr; [done|]. by eapply list_elem_of_lookup_2.
Qed.


(** * Further properties of the code *)

(** ** The scanner finds every dispatcher *)

Lemma lookup_index {A} (lines : list A) i l : lines !! i = Some l -> index lines i = Done l.
Proof. unfold index. by intros ->. Qed.

(** A line at which the document has the shape of a dispatcher is recorded by
    the iteration of the loop that visits it. *)
Lemma scan_body_complete fuel lines d acc :
  dispatcher_at lines d -> length lines - start_line d <= fuel ->
  scan_body fuel lines (start_line d) acc = Done (end_line d, acc ++ [d]).
Proof.
  intros [j Hj] Hf. span_bounds Hj.
  destruct (fw_header _ _ _ Hj) as (header & g3 & Hh & Hm & Hrt).
  destruct (fw_body _ _ _ Hj) as (body & Hb & Hnb & Hr).
  destruct (fw_close _ _ _ Hj) as (closer & Hc & Hcl).
  pose proof (lookup_lt_Some _ _ _ Hb) as Hjlen.
  pose proof (lookup_lt_Some _ _ _ Hc) as Hklen.
  unfold scan_body. rewrite (lookup_index _ _ _ Hh). simpl. rewrite Hm.
  destruct (skip_blank_spec fuel lines (start_line d + 1)) as (j' & -> & Hle & Hbl & Hst);
    [lia|].
  assert (j' = j) as ->.
  { destruct (Nat.lt_trichotomy j' j) as [Hlt|[->|Hlt]]; [|done|].
    - destruct (lookup_lt_is_Some_2 lines j') as [l Hl]; [lia|].
      exfalso. apply (Hst l Hl). apply (fw_blank _ _ _ Hj j'); [lia|done].
    - exfalso. apply Hnb. apply (Hbl j); [lia|done]. }
  simpl. destruct (Nat.ltb_spec j (length lines)); [|lia].
  rewrite (lookup_index _ _ _ Hb). simpl. rewrite Hr.
  unfold text_eqb. rewrite bool_decide_eq_true_2 by apply (fw_suffix _ _ _ Hj).
  destruct (find_close_spec fuel lines (j + 1)) as (k & -> & Hjk & Hop & Hclose); [lia|].
  assert (k = end_line d) as ->.
  { destruct (Nat.lt_trichotomy k (end_line d)) as [Hlt|[->|Hlt]]; [|done|].
    - destruct (lookup_lt_is_Some_2 lines k) as [l Hl]; [lia|].
      exfalso. apply (fw_open _ _ _ Hj k l); [lia|done|by apply Hclose].
    - exfalso. apply (Hop (end_line d) closer); [lia|done..]. }
  simpl. destruct (Nat.ltb_spec (end_line d) (length lines)); [|lia].
  do 3 f_equal. destruct d; simpl in *. by rewrite Hrt.
Qed.

Lemma scan_complete fuel lines i acc d :
  length lines - i < fuel -> dispatcher_at lines d -> i <= start_line d ->
  exists new d',
    scan fuel lines i acc = Done (acc ++ new) /\ d' ∈ new /\
    start_line d' <= start_line d <= end_line d' /\
    (start_line d' = start_line d -> d' = d).
Proof.
  revert i acc. induction fuel as [|fuel IH]; intros i acc Hf Hd Hi; [lia|].
  pose proof (dispatcher_at_bound _ _ Hd) as Hbound.
  pose proof (dispatcher_at_lt _ _ Hd) as Hlt.
  simpl. destruct (Nat.ltb_spec i (length lines)) as [Hil|Hil]; [|lia].
  destruct (scan_body_spec fuel lines i acc Hil) as [E|(d0 & E & Hs & Hd0)]; [lia| |].
  - assert (i < start_line d) as Hlt'.
    { destruct (decide (i = start_line d)) as [->|]; [|lia].
      rewrite scan_body_complete in E by (done || lia).
      injection E as _ E. apply (f_equal length) in E.
      rewrite length_app in E. simpl in E. lia. }
    rewrite E. simpl.
    destruct (IH (i + 1) acc) as (new & d' & -> & Hin & Hrange & Heq); [lia|done|lia|].
    by exists new, d'.
  - rewrite E. simpl. record_bounds Hd0.
    destruct (Nat.le_gt_cases (start_line d) (end_line d0)) as [Hin|Hout].
    + destruct (scan_spec fuel lines (end_line d0 + 1) (acc ++ [d0])) as (new & -> & _);
        [lia|].
      exists (d0 :: new), d0. rewrite <- app_assoc. split; [done|].
      split; [left|]. split; [lia|]. intros Heq.
      rewrite <- Hs, Heq, scan_body_complete in E by (done || lia).
      injection E as _ E. by apply app_inv_head in E as [= ->].
    + destruct (IH (end_line d0 + 1) (acc ++ [d0]))
        as (new & d' & -> & Hin & Hrange & Heq); [lia|done|lia|].
      exists (d0 :: new), d'. rewrite <- app_assoc. split; [done|].
      split; [by right|done].
Qed.

(** X1.  Wherever the document has the shape of a dispatcher (a header, blank
    lines, the forward to the header's name with [Cursor] appended, and a first
    later line holding only a closing brace), the scanner has a record that
    covers the header line; when that record starts at the header, it is the
    record of this dispatcher.  So a dispatcher is missed only when its header
    lies inside a span recorded for an earlier header. *)
Theorem find_dispatchers_complete content d :
  dispatcher_at (split_lines content) d ->
  exists d',
    d' ∈ find_dispatchers content /\
    start_line d' <= start_line d <= end_line d' /\
    (start_line d' = start_line d -> d' = d).
Proof.
  intros Hd. unfold find_dispatchers, find_dispatchers_run.
  destruct (scan_complete (S (length (split_lines content))) (split_lines content) 0 [] d)
    as (new & d' & -> & Hin & Hrange & Heq); [lia|done|lia|].
  by exists d'.
Qed.

Lemma find_dispatchers_complete_witness :
  let d := Dispatcher (txt "parseB") (txt "parseBCursor") 7 9 (txt "x int") (txt "Node") in
  exists d',
    d' ∈ find_dispatchers doc_two_dispatchers /\
    start_line d' <= 7 <= end_line d' /\
    (start_line d' = 7 -> d' = d).
Proof.
  intros d. apply (find_dispatchers_complete doc_two_dispatchers d).
  exists 8. constructor; simpl.
  - eexists _, _. split; [reflexivity|]. split; vm_compute; reflexivity.
  - lia.
  - intros m l Hm. lia.
  - eexists. split; [reflexivity|]. split; vm_compute; [discriminate|reflexivity].
  - reflexivity.
  - lia.
  - intros m l Hm. lia.
  - eexists. split; reflexivity.
Defined.

Lemma found_from_count lines i ds :
  found_from lines i ds -> i <= length lines ->
  i + 3 * length ds <= length lines.
Proof.
  induction 1 as [i|i d ds Hi Hd _ IH]; intros Hlen; simpl; [lia|].
  record_bounds Hd. destruct Hd as [j Hj]. span_bounds Hj.
  specialize (IH ltac:(lia)). lia.
Qed.

(** X2.  Every record takes at least three lines of its own: a document of
    [n] lines has at most [n / 3] records. *)
Theorem find_dispatchers_count content :
  3 * length (find_dispatchers content) <= length (split_lines content).
Proof.
  pose proof (found_from_count _ _ _ (find_dispatchers_found content)). lia.
Qed.

(** X3.  The lines the scanner takes for a header and for a forward.  A
    header begins, at the first character of the line, with
    [func (p *Parser) parse], at least one word character and an opening
    parenthesis, and has a closing parenthesis and then an opening brace further
    on; its name is [parse] with the word characters.  A forward is any
    whitespace, [return p.], a run of word characters that ends in [Cursor] and
    is longer than that, and an opening parenthesis; what follows is not
    looked at. *)
Theorem scanner_patterns line :
  (forall fn,
     (exists ps g3, func_match line = Some (fn, ps, g3)) <->
     exists w g2 g3 rest,
       line = txt "func (p *Parser) parse" ++ w ++
              "("%char :: (g2 ++ ")"%char :: (g3 ++ "{"%char :: rest)) /\
       w <> [] /\ Forall (fun c => is_word c = true) w /\
       (newline ∉ g2) /\ (newline ∉ g3) /\ fn = txt "parse" ++ w) /\
  (forall c,
     return_match line = Some c <->
     exists ws x rest,
       line = ws ++ txt "return p." ++ c ++ "("%char :: rest /\
       Forall (fun a => is_space a = true) ws /\
       Forall (fun a => is_word a = true) c /\
       c = x ++ txt "Cursor" /\ x <> []).
Proof. split; [apply func_match_iff|apply return_match_iff]. Qed.

(** ** The eliminator on any list of records *)

Lemma del_slice_sublist {A} a b (lines : list A) : del_slice a b lines `sublist_of` lines.
Proof.
  unfold del_slice. destruct (Nat.ltb_spec a b) as [Hab|Hab]; [|done].
  rewrite <- (take_drop a lines) at 3. apply sublist_app; [done|].
  replace b with (a + (b - a)) by lia. rewrite <- drop_drop. apply sublist_drop.
Qed.

Lemma remove_one_sublist lines d lines' :
  remove_one lines d = Done lines' -> lines' `sublist_of` lines.
Proof.
  unfold remove_one. destruct (deletion_start lines (start_line d)) as [a| |]; simpl;
    [|done..].
  intros [= <-]. apply del_slice_sublist.
Qed.

Lemma remove_loop_sublist ds lines lines' :
  remove_loop ds lines = Done lines' -> lines' `sublist_of` lines.
Proof.
  revert lines. induction ds as [|d ds IH]; intros lines; simpl; [by intros [= <-]|].
  destruct (remove_one lines d) as [lines1| |] eqn:E; simpl; [|done..].
  intros H. etrans; [by apply IH|by eapply remove_one_sublist].
Qed.

(** X4.  Whatever the records, an eliminator that returns has only deleted
    lines: the lines of its result are lines of the document, in the order of
    the document, none altered and none added. *)
Theorem remove_dispatchers_sublist content dispatchers out :
  remove_dispatchers content dispatchers = Done out ->
  exists kept,
    kept `sublist_of` split_lines content /\
    out = join_lines kept /\
    (kept <> [] -> split_lines out = kept).
Proof.
  unfold remove_dispatchers.
  destruct (remove_loop (sorted_desc dispatchers) (split_lines content)) as [kept| |] eqn:E;
    simpl; [|done..].
  intros [= <-]. apply remove_loop_sublist in E.
  exists kept. split; [done|]. split; [done|]. intros Hne. apply split_join; [done|].
  apply Forall_forall. intros l Hl.
  pose proof (split_lines_one_line content) as Hall. rewrite Forall_forall in Hall.
  apply Hall. by eapply elem_of_sublist.
Qed.

Lemma remove_dispatchers_sublist_witness :
  let out := join_lines [txt "// parseA forwards to the cursor implementation.";
                         txt "func (p *Parser) parseA() Node {"; txt ""] in
  exists kept,
    kept `sublist_of` split_lines doc_commented /\
    out = join_lines kept /\
    (kept <> [] -> split_lines out = kept).
Proof.
  intros out.
  apply (remove_dispatchers_sublist doc_commented (find_dispatchers doc_commented) out).
  vm_compute. reflexivity.
Defined.

Lemma insert_desc_elem x d l : x ∈ insert_desc d l <-> x = d \/ x ∈ l.
Proof.
  induction l as [|d' l IH]; simpl; [rewrite list_elem_of_singleton, elem_of_nil; tauto|].
  destruct (start_line d' <=? start_line d).
  - by rewrite !elem_of_cons.
  - rewrite !elem_of_cons, IH. tauto.
Qed.

Lemma sorted_desc_elem x ds : x ∈ sorted_desc ds <-> x ∈ ds.
Proof.
  induction ds as [|d ds IH]; simpl; [done|].
  by rewrite insert_desc_elem, elem_of_cons, IH.
Qed.

Lemma insert_desc_sorted d l :
  StronglySorted (fun a b => start_line b <= start_line a) l ->
  StronglySorted (fun a b => start_line b <= start_line a) (insert_desc d l).
Proof.
  induction 1 as [|d' l Hl IH Hd']; simpl; [repeat constructor|].
  destruct (Nat.leb_spec (start_line d') (start_line d)) as [Hle|Hlt].
  - constructor; [by constructor|]. constructor; [done|].
    eapply Forall_impl; [exact Hd'|]. simpl. lia.
  - constructor; [done|]. apply Forall_forall. intros x Hx.
    apply insert_desc_elem in Hx as [->|Hx]; [lia|].
    rewrite Forall_forall in Hd'. by apply Hd'.
Qed.

(** The records are visited from the largest [start_line] down. *)
Lemma sorted_desc_sorted ds :
  StronglySorted (fun a b => start_line b <= start_line a) (sorted_desc ds).
Proof. induction ds; simpl; [constructor|by apply insert_desc_sorted]. Qed.

Lemma remove_one_outcome lines d :
  (length lines < start_line d -> remove_one lines d = IndexError) /\
  (start_line d <= length lines -> exists lines', remove_one lines d = Done lines').
Proof.
  unfold remove_one, deletion_start. split; intros H.
  - destruct (start_line d) as [|p]; [lia|]. simpl. unfold index.
    rewrite lookup_ge_None_2 by lia. done.
  - destruct (extend_start_spec lines (start_line d) H) as (f & -> & _). simpl. by eexists.
Qed.

(** X5.  A record whose [start_line] is larger than the number of lines makes
    the eliminator fail with [IndexError], whatever the other records are: the
    backward search for blank lines reads [lines[start - 1]].  A single record
    whose [start_line] is at most the number of lines never makes it fail, even
    when its [end_line] lies outside the document. *)
Theorem remove_dispatchers_index_error content :
  (forall dispatchers d,
     d ∈ dispatchers -> length (split_lines content) < start_line d ->
     remove_dispatchers content dispatchers = IndexError) /\
  (forall d,
     start_line d <= length (split_lines content) ->
     exists out, remove_dispatchers content [d] = Done out).
Proof.
  split.
  - intros dispatchers d Hd Hlen. unfold remove_dispatchers.
    pose proof (sorted_desc_sorted dispatchers) as Hsorted.
    apply sorted_desc_elem in Hd.
    destruct (sorted_desc dispatchers) as [|h t]; [by apply elem_of_nil in Hd|].
    assert (start_line d <= start_line h) as Hmax.
    { apply StronglySorted_cons in Hsorted as [Hh _]. rewrite Forall_forall in Hh.
      apply elem_of_cons in Hd as [->|Hd]; [done|by apply Hh]. }
    simpl. rewrite (proj1 (remove_one_outcome _ h)) by lia. done.
  - intros d Hlen. unfold remove_dispatchers. simpl.
    destruct (proj2 (remove_one_outcome _ d) Hlen) as [lines' ->]. simpl. by eexists.
Qed.

Lemma remove_dispatchers_index_error_witness :
  remove_dispatchers doc_commented
    [Dispatcher [] [] 1 3 [] []; Dispatcher [] [] 6 7 [] []] = IndexError /\
  exists out, remove_dispatchers doc_commented [Dispatcher [] [] 5 90 [] []] = Done out.
Proof.
  split.
  - apply (proj1 (remove_dispatchers_index_error doc_commented) _
             (Dispatcher [] [] 6 7 [] [])); [right; left|vm_compute; lia].
  - apply (proj2 (remove_dispatchers_index_error doc_commented)). vm_compute. lia.
Defined.

(** ** The eliminator on the records of the scanner *)

(** X6.  For every record of the scanner the eliminator deletes the lines
    after the header up to the closing line, the forward among them.  It
    deletes the header as well when the dispatcher stands on the first line of
    the document or directly after a blank line. *)
Theorem recorded_body_deleted content d :
  d ∈ find_dispatchers content ->
  exists spans,
    deletion_spans (split_lines content) (find_dispatchers content) = Done spans /\
    remove_dispatchers content (find_dispatchers content) =
      Done (join_lines (forward_pass spans 0 (split_lines content))) /\
    (forall m, start_line d < m <= end_line d -> covered spans m = true) /\
    (start_line d = 0 \/
     (exists l, split_lines content !! (start_line d - 1) = Some l /\ blank l) ->
     covered spans (start_line d) = true).
Proof.
  intros Hd. destruct (remove_dispatchers_spans content) as (spans & Espans & Eout).
  exists spans. split; [done|]. split; [done|].
  pose proof (find_dispatchers_at _ _ Hd) as Hat. record_bounds Hat.
  destruct (deletion_spans_of_record _ _ _ _ Espans Hd) as (a & Ea & Hin).
  destruct (extend_start_spec (split_lines content) (start_line d))
    as (f & Ef & Hf & _ & Hanch); [lia|].
  unfold deletion_start in Ea. rewrite Ef in Ea. simpl in Ea. injection Ea as <-.
  split.
  - intros m Hm. apply covered_true. eexists. split; [exact Hin|].
    apply in_span_true. destruct (0 <? f); lia.
  - intros Hcase. apply covered_true. eexists. split; [exact Hin|].
    apply in_span_true. destruct (Nat.ltb_spec 0 f) as [Hpos|]; [|lia].
    assert (f < start_line d); [|lia].
    destruct Hcase as [Hzero|(l & Hl & Hbl)]; [lia|].
    destruct (decide (f = start_line d)) as [Heq|]; [|lia].
    destruct Hanch as [Hzero|(l' & Hl' & Hnb)]; [lia|].
    rewrite Heq, Hl in Hl'. injection Hl' as <-. done.
Qed.

Lemma recorded_body_deleted_witness :
  exists spans,
    deletion_spans (split_lines doc_parse_expr) (find_dispatchers doc_parse_expr) =
      Done spans /\
    (forall m, 4 < m <= 6 -> covered spans m = true) /\
    covered spans 4 = true.
Proof.
  destruct (recorded_body_deleted doc_parse_expr
              (Dispatcher (txt "parseExpr") (txt "parseExprCursor") 4 6
                 (txt "x int") (txt "Node")))
    as (spans & Espans & _ & Hbody & Hheader); [vm_compute; left|].
  exists spans. split; [done|]. split; [done|].
  apply Hheader. right. exists []. split; reflexivity.
Defined.

(** ** Stages and the whole transform *)

(** X7.  With no record to act on, neither stage alters a character of the
    document: splitting at newlines and joining again gives the text back. *)
Theorem stages_without_records content :
  remove_dispatchers content [] = Done content /\
  rename_cursor_functions [] content = content.
Proof. split; [apply remove_dispatchers_nil|apply rename_cursor_functions_nil]. Qed.

(** X8.  [process_file] returns on every document, whatever the order in which
    the set of delegate names is visited: the records of the scanner never make
    the eliminator fail.  The count it returns is the number of records. *)
Theorem process_file_returns content order :
  set_iteration (find_dispatchers content) order ->
  exists out,
    process_file order content = Done (out, length (find_dispatchers content)).
Proof.
  intros _. unfold process_file. destruct (find_dispatchers content) as [|d ds] eqn:E.
  - by exists content.
  - rewrite <- E. destruct (remove_dispatchers_spans content) as (spans & _ & ->).
    simpl. by eexists.
Qed.

Lemma process_file_returns_witness :
  exists out,
    process_file (map cursor_name (find_dispatchers doc_two_dispatchers))
      doc_two_dispatchers = Done (out, 2).
Proof.
  apply (process_file_returns doc_two_dispatchers).
  apply set_iteration_map. vm_compute.
  apply NoDup_cons. split; [|apply NoDup_singleton].
  rewrite list_elem_of_singleton. discriminate.
Defined.

(** ** The two stages commute *)

Lemma drop_while_nil f s :
  drop_while f s = [] <-> Forall (fun a => f a = true) s.
Proof.
  induction s as [|c s IH]; simpl; [by split|].
  destruct (f c) eqn:E.
  - rewrite IH. split; [by constructor|]. by intros [_ H]%Forall_cons.
  - split; [done|]. intros [H _]%Forall_cons. congruence.
Qed.

(** A line is blank when all its characters are whitespace. *)
Lemma blank_iff l : blank l <-> Forall (fun a => is_space a = true) l.
Proof.
  unfold blank, strip, rstrip, lstrip.
  assert (forall s : text, py_not s = true <-> s = []) as Hnot
    by (intros []; simpl; split; congruence).
  rewrite Hnot. split.
  - intros H. apply (f_equal reverse) in H. rewrite reverse_involutive in H.
    change (reverse []) with (@nil ascii) in H.
    apply drop_while_nil in H. rewrite Forall_reverse in H.
    rewrite <- (take_drop_while is_space l). apply Forall_app.
    split; [apply take_while_Forall|done].
  - intros H. apply drop_while_nil in H. rewrite H. reflexivity.
Qed.

Lemma renamed_all_space names s t :
  renamed names s t ->
  Forall (fun a => is_space a = true) s <-> Forall (fun a => is_space a = true) t.
Proof.
  induction 1 as [|c s t _ IH|n s t _ _ _]; [done| |].
  - by rewrite !Forall_cons, IH.
  - unfold decl_pattern.
    change (txt "func (p *Parser) ") with ("f"%char :: txt "unc (p *Parser) ").
    rewrite <- !app_comm_cons, !Forall_cons. split; intros [H _]; discriminate H.
Qed.

Lemma rename_line_blank order l :
  py_not (strip (rename_line order l)) = py_not (strip l).
Proof.
  assert (blank (rename_line order l) <-> blank l) as H.
  { rewrite !blank_iff. symmetry.
    pose proof (rename_line_renamed order order l ltac:(done)) as Hrtc.
    induction Hrtc as [|s u t Hsu _ IH]; [done|].
    by rewrite (renamed_all_space _ _ _ Hsu). }
  unfold blank in H.
  destruct (py_not (strip (rename_line order l))), (py_not (strip l));
    try done; [symmetry; by apply H|by apply H].
Qed.

Lemma extend_start_fmap (f : text -> text) lines start :
  (forall l, py_not (strip (f l)) = py_not (strip l)) ->
  extend_start (f <$> lines) start = extend_start lines start.
Proof.
  intros Hf. induction start as [|p IH]; [done|]. simpl. unfold index.
  rewrite list_lookup_fmap. destruct (lines !! p) as [l|]; simpl; [|done].
  rewrite Hf. by destruct (py_not (strip l)).
Qed.

Lemma del_slice_fmap {A B} (f : A -> B) a b (lines : list A) :
  del_slice a b (f <$> lines) = f <$> del_slice a b lines.
Proof.
  unfold del_slice. destruct (a <? b); [|done].
  by rewrite fmap_app, fmap_take, fmap_drop.
Qed.

Lemma remove_loop_fmap (f : text -> text) ds lines :
  (forall l, py_not (strip (f l)) = py_not (strip l)) ->
  remove_loop ds (f <$> lines) = outcome_map (fmap f) (remove_loop ds lines).
Proof.
  intros Hf. revert lines. induction ds as [|d ds IH]; intros lines; [done|]. simpl.
  unfold remove_one, deletion_start. rewrite extend_start_fmap by done.
  destruct (extend_start lines (start_line d)) as [s| |]; simpl; [|done..].
  rewrite del_slice_fmap. apply IH.
Qed.

Lemma rename_line_nil order : rename_line order [] = [].
Proof. unfold rename_line. induction order; simpl; [done|]. exact IHorder. Qed.

(** X9.  The eliminator and the rewriter can run in either order: for every
    document, every list of records with delegate names made of word characters
    and every order in which the set of those names is visited, eliminating
    from the renamed document fails exactly when eliminating from the document
    does, and otherwise gives the renamed result. *)
Theorem remove_rename_commute content dispatchers order :
  set_iteration dispatchers order ->
  Forall word_name order ->
  remove_dispatchers (rename_cursor_functions order content) dispatchers =
  outcome_map (rename_cursor_functions order) (remove_dispatchers content dispatchers).
Proof.
  intros _ _. unfold remove_dispatchers. rewrite rename_cursor_functions_lines.
  change (map (rename_line order) (split_lines content))
    with (rename_line order <$> split_lines content).
  rewrite remove_loop_fmap by apply rename_line_blank.
  destruct (remove_loop (sorted_desc dispatchers) (split_lines content)) as [kept| |] eqn:E;
    simpl; [|done..].
  f_equal. unfold rename_cursor_functions. destruct kept as [|l kept].
  - simpl. by rewrite rename_line_nil.
  - rewrite split_join; [done..|].
    apply remove_loop_sublist in E. apply Forall_forall. intros l' Hl'.
    pose proof (split_lines_one_line content) as Hall. rewrite Forall_forall in Hall.
    apply Hall. by eapply elem_of_sublist.
Qed.

Lemma remove_rename_commute_witness :
  let ds := find_dispatchers doc_quoted_declaration in
  let order := map cursor_name ds in
  remove_dispatchers (rename_cursor_functions order doc_quoted_declaration) ds =
  outcome_map (rename_cursor_functions order)
    (remove_dispatchers doc_quoted_declaration ds).
Proof.
  intros ds order. apply remove_rename_commute.
  - apply set_iteration_map. vm_compute. apply NoDup_singleton.
  - vm_compute. repeat constructor.
Defined.

(** ** Lengths *)

Lemma re_sub_from_length pat repl prev_word skip s :
  length repl <= length pat ->
  length (re_sub_from pat repl prev_word skip s) + skip `min` length s <= length s.
Proof.
  intros Hrepl. revert prev_word skip.
  induction s as [|c s IH]; intros prev_word skip; [simpl; lia|].
  destruct skip as [|skip].
  - rewrite re_sub_from_search.
    destruct (negb prev_word && is_prefix pat (c :: s)) eqn:Hp.
    + apply andb_true_iff in Hp as [_ Hp]. apply is_prefix_true in Hp as [r Hr].
      apply (f_equal length) in Hr. rewrite length_app in Hr. simpl in Hr.
      specialize (IH (is_word c) (length pat - 1)).
      rewrite length_app. simpl. lia.
    + specialize (IH (is_word c) 0). simpl. lia.
  - rewrite re_sub_from_skip. specialize (IH (is_word c) skip). simpl. lia.
Qed.

Lemma rename_decl_length c line : length (rename_decl c line) <= length line.
Proof.
  unfold rename_decl.
  pose proof (re_sub_from_length (decl_pattern c) (decl_pattern (base_name c))
                false 0 line) as H.
  assert (length (decl_pattern (base_name c)) <= length (decl_pattern c)); [|lia].
  unfold decl_pattern, base_name. rewrite !length_app, length_take. lia.
Qed.

Lemma rename_line_length order line : length (rename_line order line) <= length line.
Proof.
  unfold rename_line. revert line.
  induction order as [|c order IH]; intros line; simpl; [done|].
  etrans; [apply IH|apply rename_decl_length].
Qed.

Lemma join_lines_length ls : length (join_lines ls) = weight ls - 1.
Proof.
  unfold weight. induction ls as [|l ls IH]; [done|].
  destruct ls as [|l' ls]; [simpl; lia|].
  rewrite join_lines_cons, length_app, length_cons, IH. simpl. lia.
Qed.

Lemma weight_app ls1 ls2 : weight (ls1 ++ ls2) = weight ls1 + weight ls2.
Proof. apply sum_list_with_app. Qed.

Lemma weight_length ls : length ls <= weight ls.
Proof. unfold weight. induction ls; simpl; lia. Qed.

Lemma weight_fmap (f : text -> text) ls :
  (forall l, length (f l) <= length l) -> weight (f <$> ls) <= weight ls.
Proof.
  intros Hf. unfold weight. induction ls as [|l ls IH]; [done|].
  rewrite fmap_cons. cbn [sum_list_with]. specialize (Hf l). lia.
Qed.

Lemma rename_cursor_functions_length order content :
  length (rename_cursor_functions order content) <= length content.
Proof.
  rewrite <- (join_split content) at 2. unfold rename_cursor_functions.
  rewrite !join_lines_length.
  change (map (rename_line order) (split_lines content))
    with (rename_line order <$> split_lines content).
  pose proof (weight_fmap (rename_line order) (split_lines content)
                (rename_line_length order)). lia.
Qed.

(** X10.  With delegate names made of word characters, the rewriter never
    makes a line, or the document, longer: the name it writes is the delegate
    name without its last six characters. *)
Theorem rename_never_longer order content :
  Forall word_name order ->
  length (rename_cursor_functions order content) <= length content /\
  forall line, length (rename_line order line) <= length line.
Proof.
  intros _. split; [apply rename_cursor_functions_length|apply rename_line_length].
Qed.

Lemma rename_never_longer_witness :
  length (rename_cursor_functions [txt "parseACursor"] doc_quoted_declaration) <=
  length doc_quoted_declaration.
Proof.
  apply (rename_never_longer [txt "parseACursor"] doc_quoted_declaration).
  vm_compute. repeat constructor.
Defined.

(** Each record of the scanner costs the kept lines a weight of two at
    least: its forward and its closing line are deleted. *)
Lemma forward_pass_weight lines i ds :
  found_from lines i ds -> anchored lines i ->
  exists spans,
    deletion_spans lines ds = Done spans /\
    Forall (fun span => i <= fst span) spans /\
    weight (forward_pass spans 0 lines) + 2 * length ds <= weight lines.
Proof.
  induction 1 as [i|i d ds Hi Hd Hds IH]; intros Ha.
  - exists []. repeat split; [constructor|]. rewrite forward_pass_none by done.
    simpl. lia.
  - record_bounds Hd.
    destruct (dispatcher_at_end _ _ Hd) as (closer & Hcl & Hclosing).
    destruct IH as (spans & Espans & Hspans & Hw).
    { right. exists closer. simpl. rewrite Nat.sub_0_r.
      split; [done|by apply closing_not_blank]. }
    destruct (extend_start_spec lines (start_line d)) as (f & Ef & Hf & _); [lia|].
    assert (i <= f) as Hif by (eapply extend_start_anchor; [exact Ef|lia|exact Ha|lia]).
    set (a := if 0 <? f then f + 1 else f).
    assert (i <= a /\ a + 2 <= S (end_line d)) as [Hia Hae].
    { destruct Hd as [j Hj]. span_bounds Hj. unfold a. destruct (0 <? f); lia. }
    exists ((a, end_line d) :: spans). split; [|split].
    + simpl. unfold deletion_start. by rewrite Ef, Espans.
    + constructor; [done|]. eapply Forall_impl; [exact Hspans|]. simpl. lia.
    + rewrite (forward_pass_first_span lines a (end_line d) spans) by (done || lia).
      rewrite (forward_pass_prefix lines (S (end_line d)) spans) in Hw by (done || lia).
      rewrite weight_app in Hw |- *.
      assert (weight (take a lines) + 2 <= weight (take (S (end_line d)) lines));
        [|simpl length; lia].
      replace (S (end_line d)) with (a + (S (end_line d) - a)) by lia.
      rewrite <- take_take_drop, weight_app.
      pose proof (weight_length (take (S (end_line d) - a) (drop a lines))) as Hlen.
      rewrite length_take, length_drop in Hlen. lia.
Qed.

(** X11.  A run of [process_file] that finds [n] dispatchers makes the text
    shorter by at least [2 * n - 1] characters.  So every run that finds a
    dispatcher makes the text strictly shorter, and running the transform again
    and again comes to a document without dispatchers. *)
Theorem process_file_shrinks content order out n :
  set_iteration (find_dispatchers content) order ->
  process_file order content = Done (out, n) ->
  n = length (find_dispatchers content) /\
  length out + 2 * n <= length content + 1.
Proof.
  intros _. unfold process_file. destruct (find_dispatchers content) as [|d ds] eqn:E.
  - intros [= <- <-]. simpl. lia.
  - rewrite <- E. clear d ds E.
    pose proof (find_dispatchers_found content) as Hfound.
    destruct (remove_dispatchers_spans content) as (spans & Espans & ->). simpl.
    intros [= <- <-]. split; [done|].
    destruct (forward_pass_weight _ _ _ Hfound) as (spans' & Espans' & _ & Hw);
      [by left|].
    rewrite Espans in Espans'. injection Espans' as <-.
    pose proof (rename_cursor_functions_length order
      (join_lines (forward_pass spans 0 (split_lines content)))) as Hrename.
    rewrite join_lines_length in Hrename.
    pose proof (join_lines_length (split_lines content)) as Hcontent.
    rewrite join_split in Hcontent.
    pose proof (split_lines_length content) as Hpos.
    pose proof (weight_length (split_lines content)). lia.
Qed.

Lemma process_file_shrinks_witness :
  exists out,
    process_file [txt "parseExprCursor"] doc_parse_expr = Done (out, 1) /\
    length out + 2 * 1 <= length doc_parse_expr + 1.
Proof.
  assert (exists out, process_file [txt "parseExprCursor"] doc_parse_expr = Done (out, 1))
    as [out E] by (eexists; vm_compute; reflexivity).
  exists out. split; [exact E|].
  refine (proj2 (process_file_shrinks doc_parse_expr _ out 1 _ E)).
  apply set_iteration_map. vm_compute. apply NoDup_singleton.
Defined.

(** ** The declaration of a delegate *)

Lemma rename_decl_declaration c rest :
  rename_decl c (decl_pattern c ++ rest) =
  decl_pattern (base_name c) ++ rename_decl c rest.
Proof.
  unfold rename_decl.
  apply (re_sub_from_match _ _ "f"%char (txt "unc (p *Parser) " ++ c) "("%char);
    [|reflexivity].
  unfold decl_pattern. by rewrite <- app_assoc.
Qed.

Lemma base_name_suffixed n : base_name (n ++ txt "Cursor") = n.
Proof.
  unfold base_name. rewrite length_app.
  replace (length n + length (txt "Cursor") - 6) with (length n)
    by (change (length (txt "Cursor")) with 6; lia).
  apply take_app_length.
Qed.

(** X12.  The substitution made for the delegate of a record of the scanner
    turns a line that begins with the declaration of the delegate,
    [func (p *Parser) <name>Cursor(], into the declaration of the dispatcher's
    name, [func (p *Parser) <name>(], and goes on with the rest of the line. *)
Theorem delegate_declaration_renamed content d rest :
  d ∈ find_dispatchers content ->
  base_name (cursor_name d) = name d /\
  rename_decl (cursor_name d) (decl_pattern (cursor_name d) ++ rest) =
  decl_pattern (name d) ++ rename_decl (cursor_name d) rest.
Proof.
  intros Hd. destruct (find_dispatchers_at _ _ Hd) as [j Hj].
  assert (base_name (cursor_name d) = name d) as Hbase.
  { rewrite (fw_suffix _ _ _ Hj). apply base_name_suffixed. }
  split; [done|]. by rewrite rename_decl_declaration, Hbase.
Qed.

Lemma delegate_declaration_renamed_witness :
  rename_decl (txt "parseExprCursor")
    (decl_pattern (txt "parseExprCursor") ++ txt "x int) Node {") =
  decl_pattern (txt "parseExpr") ++
  rename_decl (txt "parseExprCursor") (txt "x int) Node {").
Proof.
  apply (delegate_declaration_renamed doc_parse_expr
           (Dispatcher (txt "parseExpr") (txt "parseExprCursor") 4 6
              (txt "x int") (txt "Node"))).
  vm_compute. left.
Defined.

(** ** What the records hold *)

Lemma drop_while_elem f s x : x ∈ drop_while f s -> x ∈ s.
Proof.
  intros H. rewrite <- (take_drop_while f s). apply elem_of_app. by right.
Qed.

Lemma drop_while_idemp f s : drop_while f (drop_while f s) = drop_while f s.
Proof.
  induction s as [|c s IH]; simpl; [done|].
  destruct (f c) eqn:E; [done|]. simpl. by rewrite E.
Qed.

Lemma drop_while_fixed f c s : f c = false -> drop_while f (c :: s) = c :: s.
Proof. intros H. simpl. by rewrite H. Qed.

Lemma strip_elem s x : x ∈ strip s -> x ∈ s.
Proof.
  unfold strip, rstrip, lstrip. rewrite elem_of_reverse. intros H.
  apply drop_while_elem in H. rewrite elem_of_reverse in H.
  by apply drop_while_elem in H.
Qed.

(** A stripped string has no whitespace at either end. *)
Lemma strip_stripped s : lstrip (strip s) = strip s /\ rstrip (strip s) = strip s.
Proof.
  unfold strip. set (u := lstrip s). split.
  - unfold rstrip.
    pose proof (take_drop_while is_space (reverse u)) as Hu.
    apply (f_equal reverse) in Hu. rewrite reverse_app, reverse_involutive in Hu.
    destruct (reverse (drop_while is_space (reverse u))) as [|c v] eqn:Ev; [done|].
    unfold lstrip. apply drop_while_fixed.
    assert (drop_while is_space s = c :: v ++ reverse (take_while is_space (reverse u)))
      as Hhead by (symmetry; exact Hu).
    by apply drop_while_head in Hhead.
  - unfold rstrip at 1. unfold rstrip at 1.
    by rewrite reverse_involutive, drop_while_idemp.
Qed.

(** X13.  The parameter text of a record stops before the first closing
    parenthesis of its header and holds no newline; the return annotation
    holds no opening brace and no newline, and has no whitespace at either
    end. *)
Theorem recorded_groups content d :
  d ∈ find_dispatchers content ->
  (")"%char ∉ params d) /\ (newline ∉ params d) /\
  ("{"%char ∉ return_type d) /\ (newline ∉ return_type d) /\
  lstrip (return_type d) = return_type d /\
  rstrip (return_type d) = return_type d.
Proof.
  intros Hd. destruct (find_dispatchers_at _ _ Hd) as [j Hj].
  destruct (fw_header _ _ _ Hj) as (header & g3 & _ & Hm & Hrt).
  unfold func_match in Hm.
  destruct (strip_prefix (txt "func (p *Parser) parse") header) as [rest|];
    simpl in Hm; [|done].
  destruct (take_while is_word rest) as [|c w]; [done|].
  destruct (drop_while is_word rest) as [|c1 rest1]; [done|].
  destruct (Ascii.eqb_spec c1 "("%char) as [->|Hne].
  - destruct (lazy_until ")"%char rest1) as [[g2 rest2]|] eqn:H2; simpl in Hm; [|done].
    destruct (lazy_until "{"%char rest2) as [[g3' rest3]|] eqn:H3; simpl in Hm; [|done].
    injection Hm as _ <- <-.
    apply lazy_until_Some in H2 as (_ & Hn2 & Hc2).
    apply lazy_until_Some in H3 as (_ & Hn3 & Hc3).
    rewrite Hrt. destruct (strip_stripped g3') as [Hl Hr].
    repeat split; [done|done| | |done|done].
    + intros H. by apply Hc3, strip_elem.
    + intros H. by apply Hn3, strip_elem.
  - exfalso. revert Hm Hne. clear.
    destruct c1 as [[] [] [] [] [] [] [] []]; try done.
Qed.

Lemma recorded_groups_witness :
  let d := Dispatcher (txt "parseExpr") (txt "parseExprCursor") 4 6
             (txt "x int") (txt "Node") in
  (")"%char ∉ params d) /\ (newline ∉ params d) /\
  ("{"%char ∉ return_type d) /\ (newline ∉ return_type d) /\
  lstrip (return_type d) = return_type d /\
  rstrip (return_type d) = return_type d.
Proof.
  intros d. apply (recorded_groups doc_parse_expr d). vm_compute. left.
Defined.

(** X14.  A document that has no line of the forwarding shape, or no line
    holding only a closing brace, has no dispatcher. *)
Theorem find_dispatchers_needs content :
  (forall l, l ∈ split_lines content -> return_match l = None) \/
  (forall l, l ∈ split_lines content -> ~ closing l) ->
  find_dispatchers content = [].
Proof.
  intros [Hno|Hno]; [by apply no_forward_no_dispatcher|].
  destruct (find_dispatchers content) as [|d ds] eqn:E; [done|].
  exfalso. assert (d ∈ find_dispatchers content) as Hd by (rewrite E; left).
  destruct (dispatcher_at_end _ _ (find_dispatchers_at _ _ Hd)) as (closer & Hc & Hcl).
  apply (Hno closer); [by eapply list_elem_of_lookup_2|done].
Qed.

Lemma find_dispatchers_needs_witness :
  find_dispatchers
    (join_lines [txt "func (p *Parser) parseA() Node {";
                 tab :: txt "return p.parseACursor() }"]) = [].
Proof.
  apply find_dispatchers_needs. right. intros l Hl. vm_compute in Hl.
  apply elem_of_cons in Hl as [Hl|Hl]; [rewrite Hl; vm_compute; discriminate|].
  apply list_elem_of_singleton in Hl. rewrite Hl. vm_compute. discriminate.
Defined.

(** X15.  The names in a record of the scanner are made of word characters:
    [parse], at least one more character and, for the delegate, [Cursor].  So
    the delegate name, which the rewriter splices into its pattern as it is,
    stands for itself there, and it has the six characters that
    [cursor_name[:-6]] takes off. *)
Theorem recorded_names_are_words content d :
  d ∈ find_dispatchers content ->
  word_name (name d) /\ word_name (cursor_name d) /\
  12 <= length (cursor_name d) /\
  cursor_name d = base_name (cursor_name d) ++ txt "Cursor".
Proof.
  intros Hd. pose proof (find_dispatchers_at _ _ Hd) as Hat.
  destruct (recorded_name_shape _ _ Hat) as (w & _ & _ & Hw & Hword & Hname & Hcursor).
  assert (word_name (txt "parse")) as Hparse by (vm_compute; repeat constructor).
  assert (word_name (txt "Cursor")) as Hsuffix by (vm_compute; repeat constructor).
  unfold word_name in *. rewrite Hname, Hcursor. split; [|split; [|split]].
  - by apply Forall_app.
  - rewrite !Forall_app. by repeat split.
  - rewrite !length_app. change (length (txt "parse")) with 5.
    change (length (txt "Cursor")) with 6. destruct w; [done|simpl; lia].
  - by rewrite (app_assoc (txt "parse") w), base_name_suffixed.
Qed.

Lemma recorded_names_are_words_witness :
  let d := Dispatcher (txt "parseExpr") (txt "parseExprCursor") 4 6
             (txt "x int") (txt "Node") in
  word_name (name d) /\ word_name (cursor_name d) /\
  12 <= length (cursor_name d) /\
  cursor_name d = base_name (cursor_name d) ++ txt "Cursor".
Proof.
  intros d. apply (recorded_names_are_words doc_parse_expr d). vm_compute. left.
Defined.

Lemma header_after_code_kept_witness :
  exists spans header g3,
    deletion_spans (split_lines doc_commented) (find_dispatchers doc_commented) =
      Done spans /\
    split_lines doc_commented !! 1 = Some header /\
    func_match header = Some (txt "parseA", txt "", g3) /\
    remove_dispatchers doc_commented (find_dispatchers doc_commented) =
    Done (join_lines
            (forward_pass spans 0 (take 1 (split_lines doc_commented)) ++
             header :: forward_pass spans 4 (drop 4 (split_lines doc_commented)))).
Proof.
  apply (header_after_code_kept doc_commented
           (Dispatcher (txt "parseA") (txt "parseACursor") 1 3 (txt "") (txt "Node"))
           (txt "// parseA forwards to the cursor implementation.")).
  - vm_compute. left.
  - simpl. lia.
  - reflexivity.
  - vm_compute. discriminate.
Defined.

(** X17.  A recorded dispatcher that has only blank lines above it, up to the
    first line of the document, or that stands on the first line, is deleted
    together with all those blank lines: the output is what is left of the
    lines after its closing line. *)
Theorem leading_blank_run_deleted content d :
  d ∈ find_dispatchers content ->
  (forall m l, m < start_line d -> split_lines content !! m = Some l -> blank l) ->
  exists spans,
    deletion_spans (split_lines content) (find_dispatchers content) = Done spans /\
    remove_dispatchers content (find_dispatchers content) =
    Done (join_lines
            (forward_pass spans (S (end_line d))
               (drop (S (end_line d)) (split_lines content)))).
Proof.
  intros Hd Hrun. destruct (remove_dispatchers_spans content) as (spans & Espans & ->).
  exists spans. split; [done|]. do 2 f_equal.
  pose proof (find_dispatchers_at _ _ Hd) as Hat. record_bounds Hat.
  destruct (deletion_spans_of_record _ _ _ _ Espans Hd) as (a & Ea & Hin).
  unfold deletion_start in Ea.
  rewrite (extend_start_run _ _ 0) in Ea; [|lia| |by left].
  - simpl in Ea. injection Ea as <-.
    etrans; [apply (f_equal (forward_pass _ 0)
                      (eq_sym (take_drop (S (end_line d)) (split_lines content))))|].
    rewrite forward_pass_app, forward_pass_all.
    + simpl. f_equal. rewrite length_take. lia.
    + intros m Hm. rewrite length_take in Hm. apply covered_true.
      eexists. split; [exact Hin|]. apply in_span_true. lia.
  - intros m l Hm. apply Hrun. lia.
Qed.

Lemma leading_blank_run_deleted_witness :
  exists spans,
    deletion_spans (split_lines doc_top_blanks) (find_dispatchers doc_top_blanks) =
      Done spans /\
    remove_dispatchers doc_top_blanks (find_dispatchers doc_top_blanks) =
    Done (join_lines (forward_pass spans 6 (drop 6 (split_lines doc_top_blanks)))).
Proof.
  apply (leading_blank_run_deleted doc_top_blanks
           (Dispatcher (txt "parseA") (txt "parseACursor") 3 5 (txt "") (txt "Node"))).
  - vm_compute. left.
  - intros m l Hm Hl. simpl in Hm.
    assert (m = 0 \/ m = 1 \/ m = 2) as [-> | [-> | ->]] by lia;
      vm_compute in Hl; injection Hl as <-; reflexivity.
Defined.

(** * The transform, run twice *)

(** ** The places of the lines that survive the eliminator *)

(** A line outside the spans is copied by the forward pass, after the lines
    copied from before it. *)
Lemma forward_pass_lookup spans i (ls : list text) n l :
  ls !! n = Some l -> covered spans (i + n) = false ->
  forward_pass spans i ls !! length (forward_pass spans i (take n ls)) = Some l.
Proof.
  intros Hl Hc.
  assert (forward_pass spans i ls =
          forward_pass spans i (take n ls) ++
          l :: forward_pass spans (S (i + n)) (drop (S n) ls)) as ->.
  { rewrite <- (take_drop_middle ls n l Hl) at 1.
    rewrite forward_pass_app, length_take_le by (apply lookup_lt_Some in Hl; lia).
    simpl. by rewrite Hc. }
  by apply list_lookup_middle.
Qed.

(** Every line of the forward pass is a line outside the spans, copied after
    the lines copied from before it. *)
Lemma forward_pass_position spans i (ls : list text) p l :
  forward_pass spans i ls !! p = Some l ->
  exists n,
    ls !! n = Some l /\ covered spans (i + n) = false /\
    length (forward_pass spans i (take n ls)) = p.
Proof.
  revert i p. induction ls as [|l0 ls IH]; intros i p; simpl; [done|].
  destruct (covered spans i) eqn:Hc.
  - intros H. destruct (IH _ _ H) as (n & Hn & Hcn & Hp).
    exists (S n). simpl. rewrite Hc, Nat.add_succ_r. done.
  - destruct p as [|p]; simpl.
    + intros [= ->]. exists 0. simpl. by rewrite Nat.add_0_r.
    + intros H. destruct (IH _ _ H) as (n & Hn & Hcn & Hp).
      exists (S n). simpl. rewrite Hc, Nat.add_succ_r. simpl. by rewrite Hp.
Qed.

Lemma forward_pass_take_le spans i (ls : list text) n1 n2 :
  n1 <= n2 ->
  length (forward_pass spans i (take n1 ls)) <=
  length (forward_pass spans i (take n2 ls)).
Proof.
  intros H. replace n2 with (n1 + (n2 - n1)) by lia.
  rewrite <- take_take_drop, forward_pass_app, length_app. lia.
Qed.

Lemma forward_pass_take_lt spans i (ls : list text) n1 n2 l :
  n1 < n2 -> ls !! n1 = Some l -> covered spans (i + n1) = false ->
  length (forward_pass spans i (take n1 ls)) <
  length (forward_pass spans i (take n2 ls)).
Proof.
  intros H Hl Hc. replace n2 with (n1 + S (n2 - n1 - 1)) by lia.
  rewrite <- take_take_drop, forward_pass_app, length_app.
  rewrite length_take_le by (apply lookup_lt_Some in Hl; lia).
  rewrite (drop_S _ _ _ Hl). simpl. rewrite Hc. simpl. lia.
Qed.

(** ** Renaming and the shapes of lines *)

Lemma renamed_prefix_kept names s t P :
  renamed names s t -> "*"%char ∉ P ->
  (exists r, s = P ++ r) -> exists r', t = P ++ r'.
Proof.
  intros H HP. revert P HP. induction H as [|c s t _ IH|n s t Hn _ _]; intros P HP [r E].
  - symmetry in E. apply app_eq_nil in E as [-> _]. by exists [].
  - destruct P as [|a P]; [by eexists|].
    apply not_elem_of_cons in HP as [_ HP]. injection E as <- E.
    destruct (IH P HP) as [r' ->]; [by exists r|]. by exists r'.
  - unfold decl_pattern in *.
    change (txt "func (p *Parser) ") with (txt "func (p " ++ "*"%char :: txt "Parser) ") in *.
    rewrite <- !app_assoc, <- !app_comm_cons in E.
    symmetry in E. destruct (prefix_before _ _ _ _ _ HP E) as [r0 Hr0].
    rewrite Hr0. eexists. by rewrite <- !app_assoc.
Qed.

Lemma rtc_renamed_prefix_kept names s t P :
  rtc (renamed names) s t -> "*"%char ∉ P ->
  (exists r, s = P ++ r) -> exists r', t = P ++ r'.
Proof.
  induction 1 as [|s u t Hsu _ IH]; intros HP Hs; [done|].
  apply IH; [done|]. by eapply renamed_prefix_kept.
Qed.

(** Renaming declarations leaves a forward a forward. *)
Lemma return_match_renamed_kept names s t c :
  rtc (renamed names) s t -> return_match s = Some c -> return_match t = Some c.
Proof.
  intros Hst Hs. apply return_match_iff in Hs as (ws & x & rest & -> & Hws & Hc & Hx).
  destruct (rtc_renamed_prefix_kept names _ t (ws ++ txt "return p." ++ c ++ txt "(") Hst)
    as [r' ->].
  - rewrite !not_elem_of_app. repeat split.
    + by apply (not_elem_of_Forall_false is_space).
    + rewrite list_elem_of_In. vm_compute. intuition discriminate.
    + by apply (not_elem_of_Forall_false is_word).
    + rewrite list_elem_of_In. vm_compute. intuition discriminate.
  - exists rest. by rewrite <- !app_assoc.
  - apply return_match_iff. exists ws, x, r'. by rewrite <- !app_assoc.
Qed.

Lemma return_match_rename_line order l :
  return_match (rename_line order l) = return_match l.
Proof.
  pose proof (rename_line_renamed order order l ltac:(done)) as Hrtc.
  destruct (return_match l) as [c|] eqn:E.
  - by apply (return_match_renamed_kept order l).
  - destruct (return_match (rename_line order l)) as [c|] eqn:E'; [|done].
    apply (return_match_renamed order l) in E'; [congruence|done].
Qed.

Lemma return_match_not_blank l c : return_match l = Some c -> ~ blank l.
Proof.
  intros (ws & x & rest & -> & _)%return_match_iff Hblank.
  apply blank_iff in Hblank. rewrite Forall_app in Hblank. destruct Hblank as [_ H].
  change (txt "return p.") with ("r"%char :: txt "eturn p.") in H.
  rewrite <- app_comm_cons in H. apply Forall_cons in H as [H _]. discriminate H.
Qed.

Lemma blank_rename_line order l : blank (rename_line order l) <-> blank l.
Proof. unfold blank. by rewrite rename_line_blank. Qed.

(** A line is its stripped text between two runs of whitespace. *)
Lemma strip_decompose l :
  exists a b,
    l = a ++ strip l ++ b /\
    Forall (fun c => is_space c = true) a /\ Forall (fun c => is_space c = true) b.
Proof.
  exists (take_while is_space l),
         (reverse (take_while is_space (reverse (lstrip l)))).
  split; [|split; [apply take_while_Forall|]].
  - unfold strip, rstrip.
    rewrite <- reverse_app, take_drop_while, reverse_involutive.
    unfold lstrip. by rewrite take_drop_while.
  - rewrite Forall_reverse. apply take_while_Forall.
Qed.

Lemma closing_no_f l : closing l -> "f"%char ∉ l.
Proof.
  intros Hcl. destruct (strip_decompose l) as (a & b & E & Ha & Hb).
  rewrite E, Hcl, !not_elem_of_app. repeat split.
  - by apply (not_elem_of_Forall_false is_space).
  - rewrite list_elem_of_In. vm_compute. intuition discriminate.
  - by apply (not_elem_of_Forall_false is_space).
Qed.

Lemma renamed_no_f names s t : renamed names s t -> "f"%char ∉ t -> s = t.
Proof.
  induction 1 as [|c s t _ IH|n s t _ _ _]; intros Hf; [done| |].
  - apply not_elem_of_cons in Hf as [_ Hf]. by rewrite IH.
  - exfalso. apply Hf. unfold decl_pattern.
    change (txt "func (p *Parser) ") with ("f"%char :: txt "unc (p *Parser) ").
    rewrite <- !app_comm_cons. left.
Qed.

Lemma rtc_renamed_no_f names s t :
  rtc (renamed names) s t -> "f"%char ∉ t -> s = t.
Proof.
  induction 1 as [|s u t Hsu _ IH]; intros Hf; [done|].
  specialize (IH Hf). subst u. by eapply renamed_no_f.
Qed.

(** Renaming declarations neither makes nor unmakes a closing line. *)
Lemma closing_rename_line order l : closing (rename_line order l) <-> closing l.
Proof.
  pose proof (rename_line_renamed order order l ltac:(done)) as Hrtc.
  split; intros Hcl.
  - by rewrite (rtc_renamed_no_f _ _ _ Hrtc (closing_no_f _ Hcl)).
  - rewrite rename_line_unchanged; [done|].
    intros c _ (pre & post & E). apply (closing_no_f l Hcl).
    rewrite E. unfold decl_pattern.
    change (txt "func (p *Parser) ") with ("f"%char :: txt "unc (p *Parser) ").
    rewrite !elem_of_app. right. left. left. left.
Qed.

(** ** Dispatchers of the output, seen from the input *)

(** The lines left by the forward pass, once renamed, have the shape of a
    dispatcher somewhere exactly when three surviving lines of the document
    make a dispatcher reappear. *)
Lemma reappears_dispatcher lines spans order :
  (exists d, dispatcher_at (map (rename_line order) (forward_pass spans 0 lines)) d) <->
  exists h j k, reappears lines spans order h j k.
Proof.
  split.
  - intros (d & j' & Hj').
    destruct (fw_header _ _ _ Hj') as (header' & g3 & Hh & Hm & Hrt).
    destruct (fw_body _ _ _ Hj') as (body' & Hb & _ & Hr).
    destruct (fw_close _ _ _ Hj') as (closer' & Hc & Hcl).
    rewrite list_lookup_fmap in Hh, Hb, Hc.
    apply fmap_Some in Hh as (header & Hh & ->).
    apply fmap_Some in Hb as (body & Hb & ->).
    apply fmap_Some in Hc as (closer & Hc & ->).
    destruct (forward_pass_position _ _ _ _ _ Hh) as (h & Hlh & Hch & Hph).
    destruct (forward_pass_position _ _ _ _ _ Hb) as (j & Hlj & Hcj & Hpj).
    destruct (forward_pass_position _ _ _ _ _ Hc) as (k & Hlk & Hck & Hpk).
    simpl in Hch, Hcj, Hck.
    pose proof (fw_body_after _ _ _ Hj') as Hlt1.
    pose proof (fw_end_after _ _ _ Hj') as Hlt2.
    assert (h < j < k) as Horder.
    { split.
      - destruct (Nat.lt_ge_cases h j) as [|Hge]; [done|].
        pose proof (forward_pass_take_le spans 0 lines _ _ Hge). lia.
      - destruct (Nat.lt_ge_cases j k) as [|Hge]; [done|].
        pose proof (forward_pass_take_le spans 0 lines _ _ Hge). lia. }
    exists h, j, k. constructor; [| done | |].
    + exists header, (name d), (params d), g3. do 3 (split; [done|]).
      exists body. do 2 (split; [done|]).
      by rewrite <- (fw_suffix _ _ _ Hj'), <- (return_match_rename_line order).
    + intros m l Hmid Hl Hcm.
      apply (blank_rename_line order).
      apply (fw_blank _ _ _ Hj' (length (forward_pass spans 0 (take m lines)))).
      * pose proof (forward_pass_take_lt spans 0 lines h m header ltac:(lia) Hlh Hch).
        pose proof (forward_pass_take_lt spans 0 lines m j l ltac:(lia) Hl Hcm).
        lia.
      * by rewrite list_lookup_fmap, (forward_pass_lookup spans 0 lines m l).
    + exists closer. do 2 (split; [done|]). by apply (closing_rename_line order).
  - intros (h & j & k & H).
    destruct (re_header _ _ _ _ _ _ H)
      as (header & fn & ps & g3 & Hlh & Hch & Hm & body & Hlj & Hcj & Hr).
    destruct (re_close _ _ _ _ _ _ H) as (closer & Hlk & Hck & Hcl).
    pose proof (re_order _ _ _ _ _ _ H) as Horder.
    set (out := map (rename_line order) (forward_pass spans 0 lines)).
    set (ph := length (forward_pass spans 0 (take h lines))).
    set (pj := length (forward_pass spans 0 (take j lines))).
    set (pk := length (forward_pass spans 0 (take k lines))).
    assert (out !! ph = Some (rename_line order header)) as Hoh
      by (unfold out, ph; by rewrite list_lookup_fmap, (forward_pass_lookup spans 0 lines h header)).
    assert (out !! pj = Some (rename_line order body)) as Hoj
      by (unfold out, pj; by rewrite list_lookup_fmap, (forward_pass_lookup spans 0 lines j body)).
    assert (out !! pk = Some (rename_line order closer)) as Hok
      by (unfold out, pk; by rewrite list_lookup_fmap, (forward_pass_lookup spans 0 lines k closer)).
    assert (ph < pj) as Hlt1
      by (apply (forward_pass_take_lt spans 0 lines h j header); [lia|done..]).
    assert (pj < pk) as Hlt2
      by (apply (forward_pass_take_lt spans 0 lines j k body); [lia|done..]).
    destruct (find_close_spec (S (length out)) out (pj + 1))
      as (k' & _ & Hle & Hopen & Hclose); [lia|].
    assert (k' <= pk) as Hk'.
    { destruct (Nat.le_gt_cases k' pk) as [|Hgt]; [done|]. exfalso.
      apply (Hopen pk (rename_line order closer)); [lia|done|].
      by apply closing_rename_line. }
    destruct (lookup_lt_is_Some_2 out k') as [closer' Hok'].
    { apply lookup_lt_Some in Hok. lia. }
    exists (Dispatcher fn (fn ++ txt "Cursor") ph k' ps (strip g3)), pj.
    constructor; simpl.
    + by exists (rename_line order header), g3.
    + done.
    + intros m l Hmid Hl. unfold out in Hl. rewrite list_lookup_fmap in Hl.
      apply fmap_Some in Hl as (l0 & Hl0 & ->).
      destruct (forward_pass_position _ _ _ _ _ Hl0) as (n & Hn & Hcn & Hpn).
      simpl in Hcn. apply blank_rename_line.
      apply (re_blank _ _ _ _ _ _ H n); [|done..]. split.
      * destruct (Nat.lt_ge_cases h n) as [|Hge]; [done|].
        pose proof (forward_pass_take_le spans 0 lines _ _ Hge). lia.
      * destruct (Nat.lt_ge_cases n j) as [|Hge]; [done|].
        pose proof (forward_pass_take_le spans 0 lines _ _ Hge). lia.
    + exists (rename_line order body). split; [done|].
      rewrite <- (return_match_rename_line order) in Hr.
      split; [by eapply return_match_not_blank|done].
    + done.
    + lia.
    + intros m l Hmid Hl. apply (Hopen m l); [lia|done].
    + exists closer'. split; [done|]. by apply Hclose.
Qed.

(** The scanner finds nothing exactly where nothing has the shape of a
    dispatcher. *)
Lemma find_dispatchers_nil_iff content :
  find_dispatchers content = [] <->
  ~ exists d, dispatcher_at (split_lines content) d.
Proof.
  split.
  - intros E (d & Hd). unfold find_dispatchers, find_dispatchers_run in E.
    destruct (scan_complete (S (length (split_lines content))) (split_lines content) 0 [] d)
      as (new & d' & Hs & Hin & _); [lia|done|lia|].
    rewrite Hs in E. simpl in E. subst new. by apply elem_of_nil in Hin.
  - intros H. destruct (find_dispatchers content) as [|d ds] eqn:E; [done|].
    exfalso. apply H. exists d. apply find_dispatchers_at. rewrite E. left.
Qed.

(** The lines of what the transform writes: the lines left by the forward
    pass, renamed. *)
Lemma process_file_lines content order :
  set_iteration (find_dispatchers content) order ->
  exists spans out,
    deletion_spans (split_lines content) (find_dispatchers content) = Done spans /\
    process_file order content = Done (out, length (find_dispatchers content)) /\
    (split_lines out =
       map (rename_line order) (forward_pass spans 0 (split_lines content)) \/
     forward_pass spans 0 (split_lines content) = [] /\ split_lines out = [[]]).
Proof.
  intros [_ Horder].
  destruct (remove_dispatchers_spans content) as (spans & Espans & Eout1).
  exists spans. unfold process_file.
  destruct (find_dispatchers content) as [|d ds] eqn:E.
  - exists content. split; [done|]. split; [done|]. left.
    simpl in Espans. injection Espans as <-.
    assert (order = []) as ->.
    { destruct order as [|c order]; [done|]. exfalso.
      assert (c ∈ map cursor_name (@nil dispatcher)) as Hc by (apply Horder; left).
      by apply elem_of_nil in Hc. }
    rewrite forward_pass_none by done.
    transitivity (map id (split_lines content)); [by rewrite map_id|].
    by apply map_ext.
  - rewrite Eout1. simpl.
    exists (rename_cursor_functions order
              (join_lines (forward_pass spans 0 (split_lines content)))).
    split; [done|]. split; [done|].
    rewrite rename_cursor_functions_lines.
    destruct (forward_pass spans 0 (split_lines content)) as [|l0 kept] eqn:Ek.
    + right. split; [done|]. simpl. by rewrite rename_line_nil.
    + left. rewrite split_join; [done|done|].
      rewrite <- Ek. apply forward_pass_one_line, split_lines_one_line.
Qed.

(** The dispatcher of [doc_self_call] reappears: the header of the delegate,
    once renamed, is followed by the forward to its own old name. *)
Lemma self_call_reappears :
  deletion_spans (split_lines doc_self_call) (find_dispatchers doc_self_call) =
    Done [(0, 2)] /\
  reappears (split_lines doc_self_call) [(0, 2)] [txt "parseACursor"] 4 5 6.
Proof.
  split; [vm_compute; reflexivity|]. constructor.
  - exists (txt "func (p *Parser) parseACursor() Node {"),
           (txt "parseA"), (txt ""), (txt " Node ").
    do 3 (split; [vm_compute; reflexivity|]).
    exists (tab :: txt "return p.parseACursor()").
    split; [|split]; vm_compute; reflexivity.
  - lia.
  - intros m l Hm. lia.
  - exists (txt "}"). split; [|split]; vm_compute; reflexivity.
Qed.

(** A forward that is not the first statement of its function does not stand
    in the way: [doc_nested_forward] has two forwards outside its one recorded
    span, the scanner finds nothing in what the transform writes for it, and a
    second run writes the same text. *)
Lemma nested_forward_stable :
  let order := [txt "parseACursor"] in
  length (find_dispatchers doc_nested_forward) = 1 /\
  return_match (tab :: tab :: txt "return p.parseBCursor()") = Some (txt "parseBCursor") /\
  exists out,
    process_file order doc_nested_forward = Done (out, 1) /\
    split_lines out !! 3 = Some (tab :: tab :: txt "return p.parseBCursor()") /\
    find_dispatchers out = [] /\
    process_file order out = Done (out, 0).
Proof.
  intros order. split; [vm_compute; reflexivity|]. split; [vm_compute; reflexivity|].
  eexists. split; [vm_compute; reflexivity|].
  split; [|split]; vm_compute; reflexivity.
Qed.

(** A run that finds a dispatcher writes a shorter text. *)
Lemma process_file_length content order out n :
  process_file order content = Done (out, n) ->
  n = length (find_dispatchers content) /\
  length out + 2 * n <= length content + 1.
Proof.
  unfold process_file. destruct (find_dispatchers content) as [|d ds] eqn:E.
  - intros [= <- <-]. simpl. lia.
  - rewrite <- E. clear d ds E.
    pose proof (find_dispatchers_found content) as Hfound.
    destruct (remove_dispatchers_spans content) as (spans & Espans & ->). simpl.
    intros [= <- <-]. split; [done|].
    destruct (forward_pass_weight _ _ _ Hfound) as (spans' & Espans' & _ & Hw);
      [by left|].
    rewrite Espans in Espans'. injection Espans' as <-.
    pose proof (rename_cursor_functions_length order
      (join_lines (forward_pass spans 0 (split_lines content)))) as Hrename.
    rewrite join_lines_length in Hrename.
    pose proof (join_lines_length (split_lines content)) as Hcontent.
    rewrite join_split in Hcontent.
    pose proof (split_lines_length content) as Hpos.
    pose proof (weight_length (split_lines content)). lia.
Qed.

(** C4, amended.  The transform returns, and the scanner finds no record in
    what it writes exactly when no dispatcher reappears there: when the
    document has no three surviving lines, a header once renamed, a forward to
    the name of that header followed by [Cursor] with only blank surviving
    lines between the two, and a later line holding only a closing brace.
    When the scanner finds no record in the output, a second run leaves the
    output as it is; when it finds one, a second run writes a shorter text. *)
Theorem process_file_idempotent content order :
  set_iteration (find_dispatchers content) order ->
  exists spans out,
    deletion_spans (split_lines content) (find_dispatchers content) = Done spans /\
    process_file order content = Done (out, length (find_dispatchers content)) /\
    (find_dispatchers out = [] <->
     ~ exists h j k, reappears (split_lines content) spans order h j k) /\
    (find_dispatchers out = [] ->
     forall order', process_file order' out = Done (out, 0)) /\
    (find_dispatchers out <> [] ->
     forall order' out' n,
       process_file order' out = Done (out', n) -> length out' < length out).
Proof.
  intros Hset.
  destruct (process_file_lines content order Hset) as (spans & out & Es & Ep & Hlines).
  exists spans, out. do 2 (split; [done|]). split; [|split].
  - rewrite find_dispatchers_nil_iff. destruct Hlines as [->|[Ek ->]].
    + split; intros H1 H2; apply H1; by apply reappears_dispatcher.
    + split; intros _.
      * intros (h & j & k & H).
        destruct (re_header _ _ _ _ _ _ H) as (header & _ & _ & _ & Hlh & Hch & _).
        pose proof (forward_pass_lookup spans 0 _ h header Hlh Hch) as Hl.
        rewrite Ek in Hl. done.
      * intros (d & Hd).
        pose proof (dispatcher_at_lt _ _ Hd). pose proof (dispatcher_at_bound _ _ Hd) as Hb.
        simpl in Hb. lia.
  - intros E order'. unfold process_file. by rewrite E.
  - intros Hne order' out' n Ep'.
    destruct (process_file_length _ _ _ _ Ep') as [-> Hlen].
    destruct (find_dispatchers out); [done|]. simpl in Hlen. lia.
Qed.

Lemma process_file_idempotent_witness :
  exists spans out,
    deletion_spans (split_lines doc_parse_expr) (find_dispatchers doc_parse_expr) =
      Done spans /\
    process_file [txt "parseExprCursor"] doc_parse_expr =
      Done (out, length (find_dispatchers doc_parse_expr)) /\
    (find_dispatchers out = [] <->
     ~ exists h j k,
         reappears (split_lines doc_parse_expr) spans [txt "parseExprCursor"] h j k) /\
    (find_dispatchers out = [] ->
     forall order', process_file order' out = Done (out, 0)) /\
    (find_dispatchers out <> [] ->
     forall order' out' n,
       process_file order' out = Done (out', n) -> length out' < length out).
Proof.
  apply process_file_idempotent.
  apply set_iteration_map. vm_compute. apply NoDup_singleton.
Defined.
